(** * redisqueue: queues, duplicate filter and schedulers over a Redis store

    A shallow embedding of [redisqueue/rqueues.py], [redisqueue/dupefilter.py]
    and [redisqueue/scheduler.py].

    - Python values are the inductive [pyobj]; a method that falls off its
      end returns [PyNone], exactly as in Python, so "absent" and a stored
      [None] are the same value here as they are for a caller.
    - A method is a computation [M A]: it reads and writes the [World] (the
      Redis keyspace, the seconds spent inside blocking calls, the log) and
      either returns or raises.  State written before a raise stays written.
    - The Redis commands the code issues ([LPUSH], [RPOP], [BRPOP], [ZADD],
      [SADD], [DEL], ...) are modelled on one keyspace shared by all value
      types, with Redis' own rules: a command on a key of another type fails
      and changes nothing, and a collection that becomes empty is removed.
      The store is used by this process alone: no other client writes
      between two commands.
    - Priorities are Python [int]s.  Redis reads a score as a double:
      [Redis.parse_score] gives the integer that double is worth, or nothing
      when the number is outside the range of a double.
    - [picklecompat], [utils.obj_fingerprint] and [utils.load_object] belong
      to the package but not to the three files above: the first two are
      taken as parameters ([Host]), and the class [load_object] resolves to
      is given directly as a [queue_class]. *)

From stdpp Require Import gmap strings list fin_maps sorting pretty.
From Stdlib Require Import ZArith Ascii.

Local Open Scope string_scope.
Local Open Scope Z_scope.

Set Warnings "-register-all".

(** ** Python values *)

Inductive pyobj : Type :=
| PyNone
| PyBool (b : bool)
| PyInt (z : Z)
| PyStr (s : string)
| PyBytes (s : string)
| PyList (l : list pyobj)
| PyTuple (l : list pyobj)
| PyInst (attrs : list (string * pyobj)).

(** Truth value of an object, as tested by [if obj:].  Instances of a class
    that defines neither [__bool__] nor [__len__] are true. *)
Definition truthy (o : pyobj) : bool :=
  match o with
  | PyNone => false
  | PyBool b => b
  | PyInt z => negb (z =? 0)
  | PyStr s | PyBytes s => negb (String.eqb s "")
  | PyList l | PyTuple l => match l with [] => false | _ => true end
  | PyInst _ => true
  end.

Inductive exn : Type :=
| TypeError
| ValueError
| AttributeError
| NotImplementedError
| ResponseError          (* redis.exceptions.ResponseError, e.g. WRONGTYPE *)
| CodecError.            (* whatever the serializer raises *)

Inductive outcome (A : Type) : Type :=
| Ret (a : A)
| Raise (e : exn).
Arguments Ret {A} a.
Arguments Raise {A} e.

(** [obj.name] *)
Definition getattr (o : pyobj) (name : string) : outcome pyobj :=
  match o with
  | PyInst attrs =>
      match list_find (λ kv, String.eqb kv.1 name) attrs with
      | Some (_, (_, v)) => Ret v
      | None => Raise AttributeError
      end
  | _ => Raise AttributeError
  end.

(** Unary minus: [-x] *)
Definition py_neg (o : pyobj) : outcome Z :=
  match o with
  | PyInt z => Ret (- z)
  | PyBool b => Ret (- (if b then 1 else 0))
  | _ => Raise TypeError
  end.

(** ** The world and the monad of methods *)

Inductive rvalue : Type :=
| RList (l : list string)             (* leftmost element first *)
| RZSet (z : list (Z * string))       (* rank order: by score, then by member *)
| RSet (s : gset string).

Inductive LogRecord : Type :=
| LogInfo (logger : string) (msg : string) (args : list pyobj).

Record World : Type := mkWorld {
  redis : gmap string rvalue;
  waited : Z;                         (* seconds spent blocked in BRPOP/BLPOP *)
  logged : list LogRecord
}.

Definition M (A : Type) : Type := World → outcome A * World.

#[global] Instance M_ret : MRet M := λ A a w, (Ret a, w).
#[global] Instance M_bind : MBind M := λ A B f m w,
  match m w with
  | (Ret a, w') => f a w'
  | (Raise e, w') => (Raise e, w')
  end.

Definition raise {A} (e : exn) : M A := λ w, (Raise e, w).
Definition lift {A} (o : outcome A) : M A := λ w, (o, w).
Definition get_redis : M (gmap string rvalue) := λ w, (Ret (redis w), w).
Definition put_redis (r : gmap string rvalue) : M () :=
  λ w, (Ret (), mkWorld r (waited w) (logged w)).
Definition block (seconds : Z) : M () :=
  λ w, (Ret (), mkWorld (redis w) (waited w + seconds) (logged w)).
Definition logger_info (logger msg : string) (args : list pyobj) : M () :=
  λ w, (Ret (), mkWorld (redis w) (waited w) (logged w ++ [LogInfo logger msg args])).

(** [try: m except TypeError as e: raise ValueError(...)] *)
Definition reraise_TypeError {A} (m : M A) : M A := λ w,
  match m w with
  | (Raise TypeError, w') => (Raise ValueError, w')
  | r => r
  end.

(** ** Redis commands

    The commands of [self.server] that the three files call, with the
    behaviour the Redis documentation gives them.  Each is one atomic step. *)

Module Redis.

(** Rank order of a sorted set: smaller score first, members of one score
    in the lexicographic order of their bytes. *)
Definition zlt (a b : Z * string) : bool :=
  (a.1 <? b.1) || ((a.1 =? b.1) && String.ltb a.2 b.2).

Fixpoint zinsert (a : Z * string) (z : list (Z * string)) : list (Z * string) :=
  match z with
  | [] => [a]
  | b :: z' => if zlt a b then a :: b :: z' else b :: zinsert a z'
  end.

Definition zremove (m : string) (z : list (Z * string)) : list (Z * string) :=
  filter (λ b, b.2 ≠ m) z.

Definition zmember (m : string) (z : list (Z * string)) : bool :=
  bool_decide (m ∈ z.*2).

(** Reading a key at a type: a missing key is the empty collection. *)
Definition as_list (v : option rvalue) : outcome (list string) :=
  match v with
  | None => Ret []
  | Some (RList l) => Ret l
  | Some _ => Raise ResponseError
  end.

Definition as_zset (v : option rvalue) : outcome (list (Z * string)) :=
  match v with
  | None => Ret []
  | Some (RZSet z) => Ret z
  | Some _ => Raise ResponseError
  end.

Definition as_set (v : option rvalue) : outcome (gset string) :=
  match v with
  | None => Ret ∅
  | Some (RSet s) => Ret s
  | Some _ => Raise ResponseError
  end.

(** Writing a collection back: Redis drops a key whose collection is empty. *)
Definition store_list (key : string) (l : list string)
    (r : gmap string rvalue) : gmap string rvalue :=
  match l with [] => delete key r | _ => <[key := RList l]> r end.

Definition store_zset (key : string) (z : list (Z * string))
    (r : gmap string rvalue) : gmap string rvalue :=
  match z with [] => delete key r | _ => <[key := RZSet z]> r end.

Definition lpush (key value : string) : M Z :=
  r ← get_redis;
  l ← lift (as_list (r !! key));
  put_redis (<[key := RList (value :: l)]> r);;
  mret (Z.of_nat (length (value :: l))).

Definition rpop (key : string) : M (option string) :=
  r ← get_redis;
  l ← lift (as_list (r !! key));
  match last l with
  | None => mret None
  | Some v => put_redis (store_list key (removelast l) r);; mret (Some v)
  end.

Definition lpop (key : string) : M (option string) :=
  r ← get_redis;
  l ← lift (as_list (r !! key));
  match l with
  | [] => mret None
  | v :: l' => put_redis (store_list key l' r);; mret (Some v)
  end.

(** [BRPOP key timeout] with [timeout > 0]: an element that is there is
    returned at once as the pair [(key, value)]; on an empty list the call
    waits [timeout] seconds and, nobody else pushing, returns [None]. *)
Definition brpop (key : string) (timeout : Z) : M (option (string * string)) :=
  v ← rpop key;
  match v with
  | Some v => mret (Some (key, v))
  | None => block timeout;; mret None
  end.

Definition blpop (key : string) (timeout : Z) : M (option (string * string)) :=
  v ← lpop key;
  match v with
  | Some v => mret (Some (key, v))
  | None => block timeout;; mret None
  end.

Definition llen (key : string) : M Z :=
  r ← get_redis;
  l ← lift (as_list (r !! key));
  mret (Z.of_nat (length l)).

(** The integer worth of the double nearest to the integer [z], ties going
    to the even mantissa of 53 bits: integers up to [2 ^ 53] in magnitude are
    kept, larger ones are rounded. *)
Definition to_double (z : Z) : Z :=
  let a := Z.abs z in
  if a <? 2 ^ 53 then z
  else
    let e := Z.log2 a - 52 in
    let q := a / 2 ^ e in
    let r := a mod 2 ^ e in
    let half := 2 ^ (e - 1) in
    let q' := if (half <? r) || ((r =? half) && Z.odd q) then q + 1 else q in
    Z.sgn z * (q' * 2 ^ e).

(** The score Redis reads from the decimal text of [z]: the nearest double,
    and nothing when that is not finite. *)
Definition parse_score (z : Z) : option Z :=
  let d := to_double z in
  if Z.abs d <? 2 ^ 1024 then Some d else None.

(** [ZADD key score member]: the score is read first, and a score that is
    not a valid double is an error; a member already there is moved to the
    new score, and the reply counts the members that are new. *)
Definition zadd (key : string) (score : Z) (member : string) : M Z :=
  score ← (if parse_score score is Some d then mret d else raise ResponseError);
  r ← get_redis;
  z ← lift (as_zset (r !! key));
  put_redis (<[key := RZSet (zinsert (score, member) (zremove member z))]> r);;
  mret (if zmember member z then 0 else 1).

(** [MULTI; ZRANGE key 0 0; ZREMRANGEBYRANK key 0 0; EXEC], the replies of
    the two commands as a pair. *)
Definition zrange_zremrangebyrank_0_0 (key : string) : M (list string * Z) :=
  r ← get_redis;
  z ← lift (as_zset (r !! key));
  match z with
  | [] => mret ([], 0)
  | a :: z' => put_redis (store_zset key z' r);; mret ([a.2], 1)
  end.

Definition zcard (key : string) : M Z :=
  r ← get_redis;
  z ← lift (as_zset (r !! key));
  mret (Z.of_nat (length z)).

(** [SADD key member]: the number of members added. *)
Definition sadd (key member : string) : M Z :=
  r ← get_redis;
  s ← lift (as_set (r !! key));
  put_redis (<[key := RSet ({[member]} ∪ s)]> r);;
  mret (if bool_decide (member ∈ s) then 0 else 1).

Definition scard (key : string) : M Z :=
  r ← get_redis;
  s ← lift (as_set (r !! key));
  mret (Z.of_nat (size s)).

(** [DEL key], whatever the type of the value. *)
Definition delete (key : string) : M Z :=
  r ← get_redis;
  put_redis (base.delete key r);;
  mret (if r !! key is Some _ then 1 else 0).

End Redis.

(** ** rqueues.py *)

(** A serializer is any object; [hasattr(serializer, 'loads')] is whether the
    field is there.  Both functions may raise. *)
Record Serializer : Type := mkSerializer {
  loads : option (string → outcome pyobj);
  dumps : option (pyobj → outcome string)
}.

(** What the package takes from modules outside the three files. *)
Class Host : Type := mkHost {
  picklecompat : Serializer;
  obj_fingerprint : pyobj → string
}.

(** The queue classes [load_object] can resolve [queue_cls] to. *)
Inductive queue_class : Type := Fifo | Priority | Lifo.

(** An instance of a queue class.  There is one Redis server, the one of the
    [World], so the [server] field is left out. *)
Record Queue : Type := mkQueue {
  cls : queue_class;
  key : string;
  serializer : Serializer
}.

Module Base.

Definition init `{Host} (c : queue_class) (key : string)
    (serializer : option Serializer) : M Queue :=
  let serializer := if serializer is Some s then s else picklecompat in
  if loads serializer is None then raise TypeError
  else if dumps serializer is None then raise TypeError
  else mret (mkQueue c key serializer).

Definition _serialize (self : Queue) (obj : pyobj) : M string :=
  match dumps (serializer self) with
  | Some f => lift (f obj)
  | None => raise AttributeError
  end.

Definition _unserialize (self : Queue) (serialized_obj : string) : M pyobj :=
  match loads (serializer self) with
  | Some f => lift (f serialized_obj)
  | None => raise AttributeError
  end.

Definition len (self : Queue) : M Z := raise NotImplementedError.
Definition push (self : Queue) (obj : pyobj) : M () := raise NotImplementedError.
Definition pop (self : Queue) (timeout : Z) : M pyobj := raise NotImplementedError.

Definition clear (self : Queue) : M () :=
  Redis.delete (key self);; mret ().

End Base.

(** Truth value of a byte string: [if data:] is false on [None] and on [b'']. *)
Definition bytes_truthy (d : string) : bool := negb (String.eqb d "").

Module FifoQueue.

Definition len (self : Queue) : M Z := Redis.llen (key self).

Definition push (self : Queue) (obj : pyobj) : M () :=
  data ← Base._serialize self obj;
  Redis.lpush (key self) data;; mret ().

Definition pop (self : Queue) (timeout : Z) : M pyobj :=
  data ← (if 0 <? timeout then
            data ← Redis.brpop (key self) timeout;
            mret (snd <$> data)            (* isinstance(data, tuple): data[1] *)
          else Redis.rpop (key self));
  match data with
  | Some d => if bytes_truthy d then Base._unserialize self d else mret PyNone
  | None => mret PyNone
  end.

End FifoQueue.

Module PriorityQueue.

Definition len (self : Queue) : M Z := Redis.zcard (key self).

Definition push (self : Queue) (obj : pyobj) : M () :=
  data ← Base._serialize self obj;
  priority ← lift (getattr obj "priority");
  score ← lift (py_neg priority);
  Redis.zadd (key self) score data;; mret ().

Definition pop (self : Queue) (timeout : Z) : M pyobj :=
  '(results, count) ← Redis.zrange_zremrangebyrank_0_0 (key self);
  match results with
  | d :: _ => Base._unserialize self d
  | [] => mret PyNone
  end.

End PriorityQueue.

Module LifoQueue.

Definition len (self : Queue) : M Z := Redis.llen (key self).

Definition push (self : Queue) (obj : pyobj) : M () :=
  data ← Base._serialize self obj;
  Redis.lpush (key self) data;; mret ().

Definition pop (self : Queue) (timeout : Z) : M pyobj :=
  data ← (if 0 <? timeout then
            data ← Redis.blpop (key self) timeout;
            mret (snd <$> data)
          else Redis.lpop (key self));
  match data with
  | Some d => if bytes_truthy d then Base._unserialize self d else mret PyNone
  | None => mret PyNone
  end.

End LifoQueue.

(** Method calls on a queue object go to the class of the object. *)
Definition Queue_len (q : Queue) : M Z :=
  match cls q with
  | Fifo => FifoQueue.len q
  | Priority => PriorityQueue.len q
  | Lifo => LifoQueue.len q
  end.

Definition Queue_push (q : Queue) (obj : pyobj) : M () :=
  match cls q with
  | Fifo => FifoQueue.push q obj
  | Priority => PriorityQueue.push q obj
  | Lifo => LifoQueue.push q obj
  end.

Definition Queue_pop (q : Queue) (timeout : Z) : M pyobj :=
  match cls q with
  | Fifo => FifoQueue.pop q timeout
  | Priority => PriorityQueue.pop q timeout
  | Lifo => LifoQueue.pop q timeout
  end.

Definition Queue_clear (q : Queue) : M () := Base.clear q.

(** ** dupefilter.py *)

Module RFPDupeFilter.

Record t : Type := mk {
  key : string;
  debug : bool;
  logdupes : bool
}.

Definition logger_name : string := "redisqueue.dupefilter".

Definition init (key : string) (debug : bool) : t := mk key debug true.

Definition obj_seen `{Host} (self : t) (obj : pyobj) : M bool :=
  let fp := obj_fingerprint obj in
  added ← Redis.sadd (key self) fp;
  mret (added =? 0).

Definition len (self : t) : M Z := Redis.scard (key self).

Definition clear (self : t) : M () :=
  Redis.delete (key self);; mret ().

Definition close (self : t) (reason : string) : M () := clear self.

(** [log] may reset the [logdupes] latch of the instance: it returns the
    instance as the call leaves it. *)
Definition log (self : t) (obj : pyobj) : M t :=
  if debug self then
    logger_info logger_name "Filtered duplicate obj: %(obj)s" [obj];;
    mret self
  else if logdupes self then
    logger_info logger_name
      "Filtered duplicate obj %(obj)s - no more duplicates will be shown (see DUPEFILTER_DEBUG to show all duplicates)"
      [obj];;
    mret (mk (key self) (debug self) false)
  else mret self.

End RFPDupeFilter.

(** ** scheduler.py *)

(** Reading an attribute that [open] sets: before [open] it does not exist. *)
Definition attr {A} (field : option A) : M A :=
  match field with
  | Some a => mret a
  | None => raise AttributeError
  end.

(** ["Resuming project (%d objs scheduled in %s)" % (n, key)] *)
Definition resuming (n : Z) (key : string) : string :=
  "Resuming project (" +:+ pretty n +:+ " objs scheduled in " +:+ key +:+ ")".

Module Scheduler.

Record t : Type := mk {
  persist : bool;
  flush_on_start : bool;
  queue_key : string;
  queue_cls : queue_class;
  idle_before_close : Z;
  serializer : option Serializer;
  queue : option Queue                (* set by [open] *)
}.

Definition init (persist flush_on_start : bool) (queue_key : string)
    (queue_cls : queue_class) (idle_before_close : Z)
    (serializer : option Serializer) : outcome t :=
  if idle_before_close <? 0 then Raise TypeError
  else Ret (mk persist flush_on_start queue_key queue_cls idle_before_close
               serializer None).

Definition len (self : t) : M Z :=
  q ← attr (queue self); Queue_len q.

Definition flush (self : t) : M () :=
  q ← attr (queue self); Queue_clear q.

(** [open] sets [self.queue]: it returns the scheduler as the call leaves it. *)
Definition open `{Host} (self : t) : M t :=
  q ← reraise_TypeError
        (Base.init (queue_cls self) (queue_key self) (serializer self));
  let self := mk (persist self) (flush_on_start self) (queue_key self)
                 (queue_cls self) (idle_before_close self) (serializer self)
                 (Some q) in
  (if flush_on_start self then flush self else mret ());;
  n ← len self;
  (if negb (n =? 0) then
     n ← len self;
     logger_info "Scheduler" (resuming n (queue_key self)) []
   else mret ());;
  mret self.

(** [close] calls [self.flush()], the method of the class of [self]. *)
Definition close_with (flush : M ()) (self : t) : M () :=
  if negb (persist self) then flush else mret ().

Definition close (self : t) : M () := close_with (flush self) self.

Definition enqueue (self : t) (obj : pyobj) : M bool :=
  q ← attr (queue self);
  Queue_push q obj;;
  mret true.

Definition dequeue (self : t) : M pyobj :=
  let block_pop_timeout := idle_before_close self in
  q ← attr (queue self);
  obj ← Queue_pop q block_pop_timeout;
  if truthy obj then mret obj else mret PyNone.

End Scheduler.

Module PipeScheduler.

Record t : Type := mk {
  persist : bool;
  flush_on_start : bool;
  queue_in_key : string;
  queue_in_cls : queue_class;
  queue_out_key : string;
  queue_out_cls : queue_class;
  idle_before_close : Z;
  serializer : option Serializer;
  queue_in : option Queue;            (* set by [open] *)
  queue_out : option Queue            (* set by [open] *)
}.

Definition init (persist flush_on_start : bool)
    (queue_in_key : string) (queue_in_cls : queue_class)
    (queue_out_key : string) (queue_out_cls : queue_class)
    (idle_before_close : Z) (serializer : option Serializer) : outcome t :=
  if idle_before_close <? 0 then Raise TypeError
  else Ret (mk persist flush_on_start queue_in_key queue_in_cls
               queue_out_key queue_out_cls idle_before_close serializer
               None None).

Definition len (self : t) : M Z :=
  qi ← attr (queue_in self);
  a ← Queue_len qi;
  qo ← attr (queue_out self);
  b ← Queue_len qo;
  mret (a + b).

Definition flush (self : t) : M () :=
  qi ← attr (queue_in self);
  Queue_clear qi;;
  qo ← attr (queue_out self);
  Queue_clear qo.

Definition open `{Host} (self : t) : M t :=
  qi ← reraise_TypeError
         (Base.init (queue_in_cls self) (queue_in_key self) (serializer self));
  qo ← reraise_TypeError
         (Base.init (queue_out_cls self) (queue_out_key self) (serializer self));
  let self := mk (persist self) (flush_on_start self)
                 (queue_in_key self) (queue_in_cls self)
                 (queue_out_key self) (queue_out_cls self)
                 (idle_before_close self) (serializer self)
                 (Some qi) (Some qo) in
  (if flush_on_start self then flush self else mret ());;
  a ← Queue_len qi;
  b ← (if negb (a =? 0) then mret a else Queue_len qo);   (* len(in) or len(out) *)
  (if negb (b =? 0) then
     a ← Queue_len qi;
     logger_info "PipeScheduler" (resuming a (queue_in_key self)) [];;
     b ← Queue_len qo;
     logger_info "PipeScheduler" (resuming b (queue_out_key self)) []
   else mret ());;
  mret self.

Definition close (self : t) : M () :=
  if negb (persist self) then flush self else mret ().

Definition enqueue (self : t) (obj : pyobj) (queue_name : string) : M bool :=
  (if String.eqb queue_name "in" then
     q ← attr (queue_in self); Queue_push q obj
   else if String.eqb queue_name "out" then
     q ← attr (queue_out self); Queue_push q obj
   else mret ());;
  mret true.

Definition dequeue (self : t) (queue_name : string) : M pyobj :=
  let block_pop_timeout := idle_before_close self in
  obj ← (if String.eqb queue_name "out" then
           q ← attr (queue_out self); Queue_pop q block_pop_timeout
         else if String.eqb queue_name "in" then
           q ← attr (queue_in self); Queue_pop q block_pop_timeout
         else mret PyNone);
  if truthy obj then mret obj else mret PyNone.

Definition pipe (self : t) : M bool :=
  obj ← dequeue self "in";
  if truthy obj then enqueue self obj "out" else mret false.

End PipeScheduler.

Module DupeFilterScheduler.

(** A [Scheduler] with the fields its subclass adds.  [dupefilter_cls] is
    [RFPDupeFilter], the one filter class of the package. *)
Record t : Type := mk {
  base : Scheduler.t;
  dupefilter_key : string;
  dupefilter_debug : bool;
  df : option RFPDupeFilter.t         (* set by [open] *)
}.

Definition init (persist flush_on_start : bool) (queue_key : string)
    (queue_cls : queue_class) (dupefilter_key : string)
    (dupefilter_debug : bool) (idle_before_close : Z)
    (serializer : option Serializer) : outcome t :=
  match Scheduler.init persist flush_on_start queue_key queue_cls
          idle_before_close serializer with
  | Ret b => Ret (mk b dupefilter_key dupefilter_debug None)
  | Raise e => Raise e
  end.

Definition flush (self : t) : M () :=
  d ← attr (df self);
  RFPDupeFilter.clear d;;
  q ← attr (Scheduler.queue (base self));
  Queue_clear q.

Definition open `{Host} (self : t) : M t :=
  let b := base self in
  q ← reraise_TypeError
        (Base.init (Scheduler.queue_cls b) (Scheduler.queue_key b)
           (Scheduler.serializer b));
  let d := RFPDupeFilter.init (dupefilter_key self) (dupefilter_debug self) in
  let b := Scheduler.mk (Scheduler.persist b) (Scheduler.flush_on_start b)
             (Scheduler.queue_key b) (Scheduler.queue_cls b)
             (Scheduler.idle_before_close b) (Scheduler.serializer b)
             (Some q) in
  let self := mk b (dupefilter_key self) (dupefilter_debug self) (Some d) in
  (if Scheduler.flush_on_start b then flush self else mret ());;
  a ← RFPDupeFilter.len d;
  c ← (if negb (a =? 0) then mret a else Queue_len q);     (* len(df) or len(queue) *)
  (if negb (c =? 0) then
     a ← RFPDupeFilter.len d;
     logger_info "DupeFilterScheduler" (resuming a (dupefilter_key self)) [];;
     c ← Queue_len q;
     logger_info "DupeFilterScheduler" (resuming c (Scheduler.queue_key b)) []
   else mret ());;
  mret self.

(** Inherited from [Scheduler]; [self.flush] is the method above. *)
Definition close (self : t) : M () :=
  Scheduler.close_with (flush self) (base self).

Definition len (self : t) : M Z := Scheduler.len (base self).

(** [df.log] may change the filter: the call returns its result and the
    scheduler as it leaves it. *)
Definition enqueue `{Host} (self : t) (obj : pyobj) : M (bool * t) :=
  d ← attr (df self);
  seen ← RFPDupeFilter.obj_seen d obj;
  if (seen : bool) then
    d' ← RFPDupeFilter.log d obj;
    mret (false, mk (base self) (dupefilter_key self) (dupefilter_debug self) (Some d'))
  else
    q ← attr (Scheduler.queue (base self));
    Queue_push q obj;;
    mret (true, self).

Definition dequeue (self : t) : M pyobj :=
  let block_pop_timeout := Scheduler.idle_before_close (base self) in
  q ← attr (Scheduler.queue (base self));
  obj ← Queue_pop q block_pop_timeout;
  if truthy obj then mret obj else mret PyNone.

End DupeFilterScheduler.

(** ** A serializer and a fingerprint for the examples

    [Sample.codec] is a small stand-in for [picklecompat]: it writes [None],
    integers, strings and a task object with a [priority] and a [body], each
    behind a one-letter tag, and reads them back. *)

Module Sample.

Fixpoint pos_digits (p : positive) : string :=
  match p with
  | xH => "1"
  | xO p => String "0"%char (pos_digits p)
  | xI p => String "1"%char (pos_digits p)
  end.

Definition int_digits (z : Z) : string :=
  match z with
  | Z0 => "z"
  | Zpos p => String "+"%char (pos_digits p)
  | Zneg p => String "-"%char (pos_digits p)
  end.

Fixpoint read_pos (s : string) : option positive :=
  match s with
  | EmptyString => None
  | String c EmptyString => if Ascii.eqb c "1"%char then Some xH else None
  | String c s' =>
      if Ascii.eqb c "0"%char then xO <$> read_pos s'
      else if Ascii.eqb c "1"%char then xI <$> read_pos s'
      else None
  end.

Definition read_int (s : string) : option Z :=
  match s with
  | String c s' =>
      if Ascii.eqb c "z"%char then (if String.eqb s' "" then Some 0 else None)
      else if Ascii.eqb c "+"%char then Zpos <$> read_pos s'
      else if Ascii.eqb c "-"%char then Zneg <$> read_pos s'
      else None
  | EmptyString => None
  end.

(** Splits at the first colon. *)
Fixpoint split_colon (s : string) : option (string * string) :=
  match s with
  | EmptyString => None
  | String c s' =>
      if Ascii.eqb c ":"%char then Some (EmptyString, s')
      else '(a, b) ← split_colon s'; Some (String c a, b)
  end.

Definition task (priority : Z) (body : string) : pyobj :=
  PyInst [("priority", PyInt priority); ("body", PyStr body)].

Definition sample_dumps (o : pyobj) : outcome string :=
  match o with
  | PyNone => Ret "N"
  | PyInt z => Ret (String "I"%char (int_digits z))
  | PyStr s => Ret (String "S"%char s)
  | PyInst [(k1, PyInt p); (k2, PyStr s)] =>
      if String.eqb k1 "priority" && String.eqb k2 "body"
      then Ret (String "T"%char (int_digits p ++ String ":"%char s))
      else Raise CodecError
  | _ => Raise CodecError
  end.

Definition sample_loads (d : string) : outcome pyobj :=
  match d with
  | String c s =>
      if Ascii.eqb c "N"%char then (if String.eqb s "" then Ret PyNone else Raise CodecError)
      else if Ascii.eqb c "I"%char then
        match read_int s with Some z => Ret (PyInt z) | None => Raise CodecError end
      else if Ascii.eqb c "S"%char then Ret (PyStr s)
      else if Ascii.eqb c "T"%char then
        match split_colon s with
        | Some (a, b) =>
            match read_int a with
            | Some p => Ret (task p b)
            | None => Raise CodecError
            end
        | None => Raise CodecError
        end
      else Raise CodecError
  | EmptyString => Raise CodecError
  end.

Definition codec : Serializer := mkSerializer (Some sample_loads) (Some sample_dumps).

Definition fingerprint (o : pyobj) : string :=
  match sample_dumps o with
  | Ret d => d
  | Raise _ => "?"
  end.

#[global] Instance host : Host := mkHost codec fingerprint.

Definition empty_world : World := mkWorld ∅ 0 [].

Definition fifo_jobs : Queue := mkQueue Fifo "jobs" codec.
Definition priority_jobs : Queue := mkQueue Priority "jobs" codec.

Definition filter : RFPDupeFilter.t := RFPDupeFilter.init "dupefilter:1" false.

(** Schedulers as [open] leaves them (see [sample_schedulers_opened]). *)
Definition queue_1 : Queue := mkQueue Fifo "queue:1" codec.
Definition queue_in_1 : Queue := mkQueue Fifo "queue_in:1" codec.
Definition queue_out_1 : Queue := mkQueue Fifo "queue_out:1" codec.

Definition scheduler : Scheduler.t :=
  Scheduler.mk false false "queue:1" Fifo 0 (Some codec) (Some queue_1).

Definition pipe_scheduler : PipeScheduler.t :=
  PipeScheduler.mk false false "queue_in:1" Fifo "queue_out:1" Fifo 0
    (Some codec) (Some queue_in_1) (Some queue_out_1).

Definition dupe_scheduler : DupeFilterScheduler.t :=
  DupeFilterScheduler.mk scheduler "dupefilter:1" false (Some filter).

End Sample.

(** ** Vocabulary of the properties *)

(** The serializer reads the bytes [d] as the object [t]. *)
Definition decodes (s : Serializer) (d : string) (t : pyobj) : Prop :=
  ∃ g, loads s = Some g ∧ g d = Ret t.

(** The task [t] is written by the serializer as the bytes [d], which are
    not empty and read back as [t]. *)
Definition encodes (s : Serializer) (t : pyobj) (d : string) : Prop :=
  (∃ f, dumps s = Some f ∧ f t = Ret d) ∧ d ≠ "" ∧ decodes s d t.

(** The serializer round-trips the task [t]. *)
Definition roundtrips (s : Serializer) (t : pyobj) : Prop := ∃ d, encodes s t d.

(** Order of the scores of two items of a sorted set. *)
Definition score_le (a b : Z * string) : Prop := a.1 ≤ b.1.

(** One [ZADD] on the value of a sorted set. *)
Definition zadd1 (z : list (Z * string)) (a : Z * string) : list (Z * string) :=
  Redis.zinsert a (Redis.zremove a.2 z).

(** The number [obj.priority], when [obj] has one: [push] scores [obj] with
    its negation. *)
Definition priority (t : pyobj) : option Z :=
  match getattr t "priority" with
  | Ret v => match py_neg v with Ret score => Some (- score) | Raise _ => None end
  | Raise _ => None
  end.

(** The integer [p] is one a double holds exactly, so that Redis stores
    the score [- p] as it is. *)
Definition exact_priority (p : Z) : Prop := - 2 ^ 53 ≤ p ≤ 2 ^ 53.

(** The task [t] has a priority, and a double holds it exactly. *)
Definition bounded_priority (t : pyobj) : Prop :=
  ∃ p, priority t = Some p ∧ exact_priority p.

(** The task [t] is queued as the sorted-set item [a]. *)
Definition queued (s : Serializer) (t : pyobj) (a : Z * string) : Prop :=
  encodes s t a.2 ∧ priority t = Some (- a.1) ∧ exact_priority (- a.1).

(** [a] comes out no later than [b]: its priority is at least that of [b]. *)
Definition priority_ge (a b : pyobj) : Prop :=
  ∃ pa pb, priority a = Some pa ∧ priority b = Some pb ∧ pb ≤ pa.

(** The serializer can write and read [X], and if the queue orders by
    priority [X] has one that a double holds exactly: [push] of [X] does not
    raise. *)
Definition pushable (q : Queue) (X : pyobj) : Prop :=
  roundtrips (serializer q) X ∧ (cls q = Priority → bounded_priority X).

(** [r'] is the store [r] after a push of the task [t] to [q]: the bytes of
    [t] are the leftmost element of the list of a FIFO or LIFO queue, and a
    member of the sorted set of a priority queue, scored with minus the
    priority of [t], which a double holds exactly. *)
Definition after_push (q : Queue) (t : pyobj) (r r' : gmap string rvalue) : Prop :=
  ∃ r0 d, encodes (serializer q) t d ∧
    match cls q with
    | Fifo | Lifo => ∃ l, r = Redis.store_list (key q) l r0
                          ∧ r' = Redis.store_list (key q) (d :: l) r0
    | Priority => ∃ p z, priority t = Some p ∧ exact_priority p
                         ∧ r = Redis.store_zset (key q) z r0
                         ∧ r' = Redis.store_zset (key q) (zadd1 z (- p, d)) r0
    end.

(** The store [r] holds, at the key of [q], a collection whose next item in
    the order of the class of [q] is the bytes [d]; [r'] is [r] with that
    item removed. *)
Definition next_item (q : Queue) (d : string) (r r' : gmap string rvalue) : Prop :=
  ∃ r0,
    match cls q with
    | Fifo => ∃ l, r = Redis.store_list (key q) (l ++ [d]) r0
                   ∧ r' = Redis.store_list (key q) l r0
    | Lifo => ∃ l, r = Redis.store_list (key q) (d :: l) r0
                   ∧ r' = Redis.store_list (key q) l r0
    | Priority => ∃ score z, r = Redis.store_zset (key q) ((score, d) :: z) r0
                             ∧ r' = Redis.store_zset (key q) z r0
    end.

(** * Properties *)

(** ** Running computations *)

Lemma run_bind {A B} (m : M A) (f : A → M B) (w w' : World) (a : A) :
  m w = (Ret a, w') → (m ≫= f) w = f a w'.
Proof. intros E. unfold mbind, M_bind. by rewrite E. Qed.

Lemma run_mret_bind {A B} (a : A) (f : A → M B) (w : World) :
  (mret a ≫= f) w = f a w.
Proof. done. Qed.

Lemma run_bind_raise {A B} (m : M A) (f : A → M B) (w w' : World) (e : exn) :
  m w = (Raise e, w') → (m ≫= f) w = (Raise e, w').
Proof. intros E. unfold mbind, M_bind. by rewrite E. Qed.

Lemma run_mapM_cons {A B} (f : A → M B) (x : A) (l : list A)
    (w w' w'' : World) (b : B) (bs : list B) :
  f x w = (Ret b, w') → mapM f l w' = (Ret bs, w'') →
  mapM f (x :: l) w = (Ret (b :: bs), w'').
Proof.
  intros E1 E2. cbn [mapM].
  rewrite (run_bind _ _ _ _ _ E1). by rewrite (run_bind _ _ _ _ _ E2).
Qed.

Ltac run :=
  unfold mbind, M_bind, mret, M_ret, lift, raise, get_redis, put_redis, block; cbn.

(** Round trips of concrete tasks through a concrete serializer, by running it. *)
Ltac sample_encodes :=
  split; [eexists; split; reflexivity
         | split; [discriminate | eexists; split; reflexivity]].
Ltac sample_priority :=
  eexists; split; [reflexivity | unfold exact_priority; lia].
Ltac sample_priorities :=
  repeat first
    [ apply List.Forall_nil
    | apply List.Forall_cons; [sample_priority |] ].
Ltac sample_roundtrips :=
  repeat first
    [ apply List.Forall_nil
    | apply List.Forall_cons; [eexists; sample_encodes |] ].

(** ** Lists in the store *)

Arguments Redis.store_list : simpl never.
Arguments Redis.store_zset : simpl never.
Arguments Redis.parse_score : simpl never.

Lemma as_list_store_list (key : string) (l : list string) (r : gmap string rvalue) :
  Redis.as_list (Redis.store_list key l r !! key) = Ret l.
Proof.
  destruct l; unfold Redis.store_list.
  - by rewrite lookup_delete_eq.
  - by rewrite lookup_insert_eq.
Qed.

Lemma store_list_twice (key : string) (l l' : list string) (r : gmap string rvalue) :
  Redis.store_list key l' (Redis.store_list key l r) = Redis.store_list key l' r.
Proof.
  destruct l, l'; unfold Redis.store_list;
    by rewrite ?delete_delete_eq, ?delete_insert_eq, ?insert_delete_eq, ?insert_insert_eq.
Qed.

Lemma store_list_absent (key : string) (r : gmap string rvalue) :
  r !! key = None → Redis.store_list key [] r = r.
Proof. intros E. by apply delete_id. Qed.

Lemma last_snoc_some {A} (l : list A) (x : A) : last (l ++ [x]) = Some x.
Proof. apply last_snoc. Qed.

Lemma removelast_snoc {A} (l : list A) (x : A) : removelast (l ++ [x]) = l.
Proof. apply removelast_last. Qed.

Lemma bytes_truthy_nonempty (d : string) : d ≠ "" → bytes_truthy d = true.
Proof.
  intros N. unfold bytes_truthy. destruct (String.eqb_spec d ""); [done | done].
Qed.

(** ** FifoQueue *)

Section Fifo.
Variable q : Queue.
Let k := key q.
Let s := serializer q.

Lemma FifoQueue_push_run t d l r wt lg :
  encodes s t d →
  FifoQueue.push q t (mkWorld (Redis.store_list k l r) wt lg)
  = (Ret (), mkWorld (Redis.store_list k (d :: l) r) wt lg).
Proof.
  intros [(f & Ef & Ed) _]. subst k s.
  unfold FifoQueue.push, Base._serialize, Redis.lpush. rewrite Ef. run.
  rewrite Ed, as_list_store_list. cbn.
  change (<[key q := RList (d :: l)]> ?m) with (Redis.store_list (key q) (d :: l) m).
  by rewrite store_list_twice.
Qed.

Lemma FifoQueue_pop_run t d l r wt lg timeout :
  decodes s d t → d ≠ "" →
  FifoQueue.pop q timeout (mkWorld (Redis.store_list k (l ++ [d]) r) wt lg)
  = (Ret t, mkWorld (Redis.store_list k l r) wt lg).
Proof.
  intros (g & Eg & Et) Nd. subst k s.
  unfold FifoQueue.pop, Redis.brpop, Redis.rpop, Base._unserialize.
  rewrite Eg. run.
  destruct (0 <? timeout); cbn;
    rewrite as_list_store_list, last_snoc_some, removelast_snoc; cbn;
    rewrite store_list_twice, (bytes_truthy_nonempty _ Nd); by rewrite Et.
Qed.

Lemma FifoQueue_pop_empty r wt lg timeout :
  r !! k = None →
  FifoQueue.pop q timeout (mkWorld r wt lg)
  = (Ret PyNone, mkWorld r (if 0 <? timeout then wt + timeout else wt) lg).
Proof.
  intros E. subst k. unfold FifoQueue.pop, Redis.brpop, Redis.rpop. run.
  destruct (0 <? timeout); cbn; by rewrite E.
Qed.

Lemma FifoQueue_push_all ts ds l r wt lg :
  Forall2 (encodes s) ts ds →
  mapM (FifoQueue.push q) ts (mkWorld (Redis.store_list k l r) wt lg)
  = (Ret ((λ _, ()) <$> ts), mkWorld (Redis.store_list k (rev ds ++ l) r) wt lg).
Proof.
  intros F. revert l. induction F as [|t d ts ds E F IH]; intros l; [done |].
  eapply run_mapM_cons; [by apply FifoQueue_push_run |].
  rewrite IH. cbn [rev]. by rewrite <- app_assoc.
Qed.

Lemma FifoQueue_pop_all ts ds timeouts r wt lg :
  Forall2 (encodes s) ts ds → length timeouts = length ts →
  mapM (FifoQueue.pop q) timeouts (mkWorld (Redis.store_list k (rev ds) r) wt lg)
  = (Ret ts, mkWorld (Redis.store_list k [] r) wt lg).
Proof.
  intros F. revert timeouts.
  induction F as [|t d ts ds E F IH]; intros [|timeout timeouts] L;
    try discriminate; [done |].
  cbn [rev]. destruct E as (_ & Nd & Dec).
  eapply run_mapM_cons; [by apply FifoQueue_pop_run |].
  apply IH. by injection L.
Qed.

End Fifo.

Lemma LifoQueue_pop_run (q : Queue) t d l r wt lg timeout :
  decodes (serializer q) d t → d ≠ "" →
  LifoQueue.pop q timeout (mkWorld (Redis.store_list (key q) (d :: l) r) wt lg)
  = (Ret t, mkWorld (Redis.store_list (key q) l r) wt lg).
Proof.
  intros (g & Eg & Et) Nd.
  unfold LifoQueue.pop, Redis.blpop, Redis.lpop, Base._unserialize.
  rewrite Eg. run.
  destruct (0 <? timeout); cbn;
    rewrite as_list_store_list; cbn;
    rewrite store_list_twice, (bytes_truthy_nonempty _ Nd); by rewrite Et.
Qed.

Lemma roundtrips_encodings (s : Serializer) (ts : list pyobj) :
  Forall (roundtrips s) ts → ∃ ds, Forall2 (encodes s) ts ds.
Proof.
  induction 1 as [|t ts [d E] _ [ds IH]]; [by exists [] |].
  exists (d :: ds). by constructor.
Qed.

(** C1. Tasks pushed to a FIFO queue that starts empty come back from as many
    pops in the order of the pushes, whatever the timeout of each pop; the
    queue is then empty again, and a pop with timeout 0 on the empty queue
    returns [None] without waiting.  The serializer is assumed to write each
    pushed task as a non-empty byte string that reads back as the task. *)
Theorem fifo_pops_in_push_order (q : Queue) (tasks : list pyobj)
    (timeouts : list Z) (w : World) :
  Forall (roundtrips (serializer q)) tasks →
  redis w !! key q = None →
  length timeouts = length tasks →
  (mapM (FifoQueue.push q) tasks ≫= λ _, mapM (FifoQueue.pop q) timeouts) w
    = (Ret tasks, w)
  ∧ FifoQueue.pop q 0 w = (Ret PyNone, w).
Proof.
  intros R E L. destruct (roundtrips_encodings _ _ R) as [ds F].
  destruct w as [r wt lg]; cbn in E. split.
  - rewrite <- (store_list_absent _ _ E) at 1.
    erewrite run_bind; [| by apply FifoQueue_push_all].
    rewrite app_nil_r, (FifoQueue_pop_all q tasks ds); [| done | done].
    by rewrite store_list_absent.
  - by rewrite FifoQueue_pop_empty.
Qed.

Lemma fifo_pops_in_push_order_witness :
  (mapM (FifoQueue.push Sample.fifo_jobs) [PyStr "A"; PyStr "B"; PyStr "C"]
     ≫= λ _, mapM (FifoQueue.pop Sample.fifo_jobs) [0; 5; 0]) Sample.empty_world
    = (Ret [PyStr "A"; PyStr "B"; PyStr "C"], Sample.empty_world)
  ∧ FifoQueue.pop Sample.fifo_jobs 0 Sample.empty_world
    = (Ret PyNone, Sample.empty_world).
Proof.
  apply fifo_pops_in_push_order.
  - sample_roundtrips.
  - reflexivity.
  - reflexivity.
Defined.

(** ** Sorted sets in the store *)

Lemma zinsert_perm (a : Z * string) (z : list (Z * string)) :
  Redis.zinsert a z ≡ₚ a :: z.
Proof.
  induction z as [|b z IH]; cbn; [done |].
  destruct (Redis.zlt a b); [done |].
  rewrite IH. apply Permutation_swap.
Qed.

Lemma zlt_score_le (a b : Z * string) : Redis.zlt a b = true → score_le a b.
Proof. unfold Redis.zlt, score_le. lia. Qed.

Lemma not_zlt_score_le (a b : Z * string) : Redis.zlt a b = false → score_le b a.
Proof. unfold Redis.zlt, score_le. lia. Qed.

Lemma zinsert_sorted (a : Z * string) (z : list (Z * string)) :
  StronglySorted score_le z → StronglySorted score_le (Redis.zinsert a z).
Proof.
  induction 1 as [|b z S IH F]; cbn.
  - repeat constructor.
  - destruct (Redis.zlt a b) eqn:L.
    + apply zlt_score_le in L. constructor; [by constructor |].
      constructor; [done |].
      eapply Forall_impl; [exact F |]. unfold score_le in *. intros; lia.
    + apply not_zlt_score_le in L. constructor; [done |].
      rewrite zinsert_perm. by constructor.
Qed.

Lemma zremove_sorted (m : string) (z : list (Z * string)) :
  StronglySorted score_le z → StronglySorted score_le (Redis.zremove m z).
Proof.
  unfold Redis.zremove. induction 1 as [|b z S IH F]; [constructor |].
  rewrite filter_cons. case_decide; [| done].
  constructor; [done |].
  apply Forall_forall. intros x [_ I]%list_elem_of_filter.
  by eapply Forall_forall in F.
Qed.

Lemma elem_of_zremove (m : string) (z : list (Z * string)) (b : Z * string) :
  b ∈ Redis.zremove m z ↔ b.2 ≠ m ∧ b ∈ z.
Proof. unfold Redis.zremove. by rewrite list_elem_of_filter. Qed.

Lemma zremove_members (m : string) (z : list (Z * string)) :
  NoDup z.*2 → NoDup (Redis.zremove m z).*2 ∧ m ∉ (Redis.zremove m z).*2.
Proof.
  intros N. split.
  - eapply sublist_NoDup; [exact N |]. apply fmap_sublist, sublist_filter.
  - intros (b & E & I%elem_of_zremove)%list_elem_of_fmap.
    destruct I as [Hne _]. by apply Hne.
Qed.

Lemma elem_of_zadd1 (z : list (Z * string)) (a b : Z * string) :
  b ∈ zadd1 z a ↔ b = a ∨ (b.2 ≠ a.2 ∧ b ∈ z).
Proof.
  unfold zadd1. rewrite zinsert_perm, elem_of_cons, elem_of_zremove. done.
Qed.

Lemma zadd1_members (z : list (Z * string)) (a : Z * string) :
  NoDup z.*2 → NoDup (zadd1 z a).*2.
Proof.
  intros [N I]%(zremove_members a.2). unfold zadd1.
  rewrite zinsert_perm. cbn. by constructor.
Qed.

Lemma zadd1_nonempty (z : list (Z * string)) (a : Z * string) (r : gmap string rvalue)
    (key : string) :
  <[key := RZSet (zadd1 z a)]> r = Redis.store_zset key (zadd1 z a) r.
Proof.
  unfold Redis.store_zset. destruct (zadd1 z a) eqn:E; [| done].
  assert (a ∈ zadd1 z a) as I by (apply elem_of_zadd1; by left).
  rewrite E in I. by apply not_elem_of_nil in I.
Qed.

Lemma as_zset_store_zset (key : string) (z : list (Z * string)) (r : gmap string rvalue) :
  Redis.as_zset (Redis.store_zset key z r !! key) = Ret z.
Proof.
  destruct z; unfold Redis.store_zset.
  - by rewrite lookup_delete_eq.
  - by rewrite lookup_insert_eq.
Qed.

Lemma store_zset_twice (key : string) (z z' : list (Z * string)) (r : gmap string rvalue) :
  Redis.store_zset key z' (Redis.store_zset key z r) = Redis.store_zset key z' r.
Proof.
  destruct z, z'; unfold Redis.store_zset;
    by rewrite ?delete_delete_eq, ?delete_insert_eq, ?insert_delete_eq, ?insert_insert_eq.
Qed.

(** What a run of [ZADD]s leaves, when items with one member are one item:
    the items, each once, in score order. *)
Lemma zadd_all_spec (items : list (Z * string)) :
  (∀ a b, a ∈ items → b ∈ items → a.2 = b.2 → a = b) →
  let z := foldl zadd1 [] items in
  StronglySorted score_le z ∧ NoDup z.*2 ∧ ∀ a, a ∈ z ↔ a ∈ items.
Proof.
  induction items as [|a items IH] using rev_ind; intros Fn.
  - cbn. split; [constructor | split; [constructor | done]].
  - destruct IH as (S & N & I).
    { intros b c Hb Hc. apply Fn; apply elem_of_app; by left. }
    rewrite foldl_app. cbn. split; [| split].
    + by apply zinsert_sorted, zremove_sorted.
    + by apply zadd1_members.
    + intros b. rewrite elem_of_zadd1, elem_of_app, list_elem_of_singleton, I.
      split; [intros [-> | [_ Hb]]; [by right | by left] |].
      intros [Hb | ->]; [| by left].
      destruct (decide (b.2 = a.2)) as [E | E]; [| by right].
      left. apply Fn; [| | done]; apply elem_of_app; [by left | right].
      by apply list_elem_of_singleton.
Qed.

(** Redis stores the negation of an exact priority as it is. *)
Lemma parse_score_exact (p : Z) :
  exact_priority p → Redis.parse_score (- p) = Some (- p).
Proof.
  unfold exact_priority, Redis.parse_score, Redis.to_double.
  change (2 ^ 53) with 9007199254740992. intros B.
  destruct (Z.ltb_spec (Z.abs (- p)) 9007199254740992) as [L | L].
  - destruct (Z.ltb_spec (Z.abs (- p)) (2 ^ 1024)) as [_ | G]; [done |].
    exfalso. assert (9007199254740992 < 2 ^ 1024) by (by vm_compute). lia.
  - assert (p = 9007199254740992 ∨ p = - 9007199254740992) as [-> | ->] by lia;
      by vm_compute.
Qed.

(** ** PriorityQueue *)

Lemma encodes_same_task (s : Serializer) (t t' : pyobj) (d : string) :
  encodes s t d → encodes s t' d → t = t'.
Proof.
  intros (_ & _ & g & Eg & Et) (_ & _ & g' & Eg' & Et'). congruence.
Qed.

Lemma encodes_same_bytes (s : Serializer) (t : pyobj) (d d' : string) :
  encodes s t d → encodes s t d' → d = d'.
Proof.
  intros [(f & Ef & Ed) _] [(f' & Ef' & Ed') _]. congruence.
Qed.

Lemma queued_same_member (s : Serializer) (t t' : pyobj) (a b : Z * string) :
  queued s t a → queued s t' b → a.2 = b.2 → t = t' ∧ a = b.
Proof.
  intros (E & P & _) (E' & P' & _) Eq. rewrite Eq in E.
  pose proof (encodes_same_task _ _ _ _ E E') as ->. split; [done |].
  destruct a, b; cbn in *. f_equal; [| done]. rewrite P in P'. injection P'. lia.
Qed.

Lemma queued_same_task (s : Serializer) (t : pyobj) (a b : Z * string) :
  queued s t a → queued s t b → a = b.
Proof.
  intros (E & P & _) (E' & P' & _).
  pose proof (encodes_same_bytes _ _ _ _ E E').
  destruct a, b; cbn in *. f_equal; [| done]. rewrite P in P'. injection P'. lia.
Qed.

Section Priority.
Variable q : Queue.
Let k := key q.
Let s := serializer q.

Lemma PriorityQueue_push_run t a z r wt lg :
  queued s t a →
  PriorityQueue.push q t (mkWorld (Redis.store_zset k z r) wt lg)
  = (Ret (), mkWorld (Redis.store_zset k (zadd1 z a) r) wt lg).
Proof.
  intros ([(f & Ef & Ed) _] & P & B%parse_score_exact). subst k s.
  destruct a as [sc d]; cbn in *. rewrite Z.opp_involutive in B.
  unfold priority in P.
  destruct (getattr t "priority") as [v|] eqn:G; [| done].
  destruct (py_neg v) as [sc'|] eqn:N; [| done].
  assert (sc' = sc) as -> by (injection P; lia).
  unfold PriorityQueue.push, Base._serialize, Redis.zadd. rewrite Ef. run.
  rewrite Ed, G, N. cbn. rewrite B. cbn. rewrite as_zset_store_zset. cbn.
  change (Redis.zinsert (sc, d) (Redis.zremove d z)) with (zadd1 z (sc, d)).
  by rewrite zadd1_nonempty, store_zset_twice.
Qed.

Lemma PriorityQueue_pop_run t a z r wt lg timeout :
  decodes s a.2 t →
  PriorityQueue.pop q timeout (mkWorld (Redis.store_zset k (a :: z) r) wt lg)
  = (Ret t, mkWorld (Redis.store_zset k z r) wt lg).
Proof.
  intros (g & Eg & Et). subst k s.
  unfold PriorityQueue.pop, Redis.zrange_zremrangebyrank_0_0, Base._unserialize.
  rewrite Eg. run. rewrite as_zset_store_zset. cbn.
  by rewrite store_zset_twice, Et.
Qed.

Lemma PriorityQueue_pop_empty r wt lg timeout :
  r !! k = None →
  PriorityQueue.pop q timeout (mkWorld r wt lg) = (Ret PyNone, mkWorld r wt lg).
Proof.
  intros E. subst k.
  unfold PriorityQueue.pop, Redis.zrange_zremrangebyrank_0_0. run. by rewrite E.
Qed.

Lemma PriorityQueue_push_all ts items z r wt lg :
  Forall2 (queued s) ts items →
  mapM (PriorityQueue.push q) ts (mkWorld (Redis.store_zset k z r) wt lg)
  = (Ret ((λ _, ()) <$> ts), mkWorld (Redis.store_zset k (foldl zadd1 z items) r) wt lg).
Proof.
  intros F. revert z. induction F as [|t a ts items E F IH]; intros z; [done |].
  eapply run_mapM_cons; [by apply PriorityQueue_push_run |]. by rewrite IH.
Qed.

Lemma PriorityQueue_pop_all ts z timeouts r wt lg :
  Forall2 (queued s) ts z → length timeouts = length ts →
  mapM (PriorityQueue.pop q) timeouts (mkWorld (Redis.store_zset k z r) wt lg)
  = (Ret ts, mkWorld (Redis.store_zset k [] r) wt lg).
Proof.
  intros F. revert timeouts.
  induction F as [|t a ts z E F IH]; intros [|timeout timeouts] L;
    try discriminate; [done |].
  destruct E as [(_ & _ & Dec) _].
  eapply run_mapM_cons; [by apply PriorityQueue_pop_run |].
  apply IH. by injection L.
Qed.

End Priority.

Lemma Forall2_elem_of_l {A B} (R : A → B → Prop) (l : list A) (k : list B) (x : A) :
  Forall2 R l k → x ∈ l → ∃ y, y ∈ k ∧ R x y.
Proof.
  induction 1 as [|x' y l k HR F IH]; intros I; [by apply not_elem_of_nil in I |].
  apply elem_of_cons in I as [-> | I].
  - exists y. split; [by left | done].
  - destruct (IH I) as (y' & Iy & Ry). exists y'. split; [by right | done].
Qed.

Lemma Forall2_elem_of_r {A B} (R : A → B → Prop) (l : list A) (k : list B) (y : B) :
  Forall2 R l k → y ∈ k → ∃ x, x ∈ l ∧ R x y.
Proof.
  induction 1 as [|x y' l k HR F IH]; intros I; [by apply not_elem_of_nil in I |].
  apply elem_of_cons in I as [-> | I].
  - exists x. split; [by left | done].
  - destruct (IH I) as (x' & Ix & Rx). exists x'. split; [by right | done].
Qed.

Lemma Forall2_choose_l {A B} (R : A → B → Prop) (k : list B) :
  (∀ y, y ∈ k → ∃ x, R x y) → ∃ l, Forall2 R l k.
Proof.
  induction k as [|y k IH]; intros C; [by exists [] |].
  destruct (C y) as [x Rx]; [by left |].
  destruct IH as [l F]; [intros y' I; apply C; by right |].
  exists (x :: l). by constructor.
Qed.

Lemma Forall2_sorted {A B} (R : A → B → Prop) (S : relation B) (T : relation A)
    (l : list A) (k : list B) :
  (∀ x y x' y', R x y → R x' y' → S y y' → T x x') →
  Forall2 R l k → StronglySorted S k → StronglySorted T l.
Proof.
  intros Mono. induction 1 as [|x y l k HR F IH]; intros Sk; [constructor |].
  apply StronglySorted_inv in Sk as [Sk Fy]. constructor; [by apply IH |].
  apply Forall_forall. intros x' Ix.
  destruct (Forall2_elem_of_l _ _ _ _ F Ix) as (y' & Iy & Ry).
  eapply Mono; [exact HR | exact Ry |]. by eapply Forall_forall in Fy.
Qed.

Lemma queued_items (s : Serializer) (ts : list pyobj) :
  Forall (roundtrips s) ts → Forall bounded_priority ts →
  ∃ items, Forall2 (queued s) ts items.
Proof.
  induction 1 as [|t ts [d E] _ IH]; intros P; [by exists [] |].
  apply Forall_cons in P as [(p & Pt & B) P]. destruct (IH P) as [items F].
  exists ((- p, d) :: items). constructor; [| done].
  split; [done |]. cbn. rewrite Z.opp_involutive. by split.
Qed.

Lemma queued_NoDup (s : Serializer) (ts : list pyobj) (z : list (Z * string)) :
  Forall2 (queued s) ts z → NoDup z.*2 → NoDup ts.
Proof.
  induction 1 as [|t a ts z Q F IH]; intros N; [constructor |].
  cbn in N. apply NoDup_cons in N as [Na N]. constructor; [| by apply IH].
  intros I. destruct (Forall2_elem_of_l _ _ _ _ F I) as (b & Ib & Qb).
  apply Na. rewrite (queued_same_task _ _ _ _ Q Qb).
  apply list_elem_of_fmap. by exists b.
Qed.

Lemma queued_priority_ge (s : Serializer) (t t' : pyobj) (a b : Z * string) :
  queued s t a → queued s t' b → score_le a b → priority_ge t t'.
Proof.
  intros (_ & P & _) (_ & P' & _) L. exists (- a.1), (- b.1). unfold score_le in L.
  split; [done | split; [done | lia]].
Qed.

(** C2, as the code has it.  Tasks whose priority is an integer of at most
    [2 ^ 53] in magnitude, pushed to a priority queue that starts empty: no
    push raises; the pops that follow return tasks in descending order of
    priority, each pushed task exactly once (a task pushed twice is stored
    once), and leave the queue empty.  In particular distinct tasks, of
    equal priority or not, all come back, each once.  The serializer is
    assumed to round-trip each pushed task. *)
Theorem priority_pops_descending (q : Queue) (tasks : list pyobj) (w : World) :
  Forall (roundtrips (serializer q)) tasks →
  Forall bounded_priority tasks →
  redis w !! key q = None →
  ∃ popped w1,
    mapM (PriorityQueue.push q) tasks w = (Ret ((λ _, ()) <$> tasks), w1)
    ∧ (∀ timeouts, length timeouts = length popped →
         mapM (PriorityQueue.pop q) timeouts w1 = (Ret popped, w))
    ∧ (∀ timeout, PriorityQueue.pop q timeout w = (Ret PyNone, w))
    ∧ StronglySorted priority_ge popped
    ∧ NoDup popped
    ∧ (∀ t, t ∈ popped ↔ t ∈ tasks)
    ∧ (NoDup tasks → popped ≡ₚ tasks).
Proof.
  intros R P E. destruct (queued_items _ _ R P) as [items F].
  destruct (zadd_all_spec items) as (Sz & Nz & Iz).
  { intros a b Ia Ib Eq.
    destruct (Forall2_elem_of_r _ _ _ _ F Ia) as (t & _ & Qa).
    destruct (Forall2_elem_of_r _ _ _ _ F Ib) as (t' & _ & Qb).
    by destruct (queued_same_member _ _ _ _ _ Qa Qb Eq). }
  destruct (Forall2_choose_l (queued (serializer q)) (foldl zadd1 [] items))
    as [popped Fp].
  { intros a Ia%Iz. destruct (Forall2_elem_of_r _ _ _ _ F Ia) as (t & _ & Qa).
    by exists t. }
  assert (∀ t, t ∈ popped ↔ t ∈ tasks) as Same.
  { intros t. split; intros I.
    - destruct (Forall2_elem_of_l _ _ _ _ Fp I) as (a & Ia%Iz & Qa).
      destruct (Forall2_elem_of_r _ _ _ _ F Ia) as (t' & It' & Qa').
      destruct Qa as [Ea _], Qa' as [Ea' _].
      by rewrite (encodes_same_task _ _ _ _ Ea Ea').
    - destruct (Forall2_elem_of_l _ _ _ _ F I) as (a & Ia%Iz & Qa).
      destruct (Forall2_elem_of_r _ _ _ _ Fp Ia) as (t' & It' & Qa').
      destruct Qa as [Ea _], Qa' as [Ea' _].
      by rewrite (encodes_same_task _ _ _ _ Ea Ea'). }
  pose proof (queued_NoDup _ _ _ Fp Nz) as Np.
  destruct w as [r wt lg]; cbn in E.
  exists popped, (mkWorld (Redis.store_zset (key q) (foldl zadd1 [] items) r) wt lg).
  split; [| split; [| split; [| split; [| split; [| split]]]]]; try done.
  - rewrite <- (delete_id r (key q) E) at 1.
    by apply (PriorityQueue_push_all q tasks items []).
  - intros timeouts L. rewrite (PriorityQueue_pop_all q popped); [| done | done].
    unfold Redis.store_zset. by rewrite delete_id.
  - intros timeout. by apply PriorityQueue_pop_empty.
  - eapply Forall2_sorted; [| exact Fp | exact Sz].
    intros ????. apply queued_priority_ge.
  - intros Nt. by apply NoDup_Permutation.
Qed.

Lemma priority_pops_descending_witness :
  ∃ popped w1,
    mapM (PriorityQueue.push Sample.priority_jobs)
      [Sample.task 3 "x"; Sample.task 1 "y"; Sample.task 2 "z"] Sample.empty_world
    = (Ret [(); (); ()], w1)
    ∧ (∀ timeouts, length timeouts = length popped →
         mapM (PriorityQueue.pop Sample.priority_jobs) timeouts w1
         = (Ret popped, Sample.empty_world))
    ∧ (∀ timeout, PriorityQueue.pop Sample.priority_jobs timeout Sample.empty_world
                  = (Ret PyNone, Sample.empty_world))
    ∧ StronglySorted priority_ge popped
    ∧ NoDup popped
    ∧ (∀ t, t ∈ popped ↔ t ∈ [Sample.task 3 "x"; Sample.task 1 "y"; Sample.task 2 "z"])
    ∧ (NoDup [Sample.task 3 "x"; Sample.task 1 "y"; Sample.task 2 "z"] →
       popped ≡ₚ [Sample.task 3 "x"; Sample.task 1 "y"; Sample.task 2 "z"]).
Proof.
  apply (priority_pops_descending Sample.priority_jobs
           [Sample.task 3 "x"; Sample.task 1 "y"; Sample.task 2 "z"]
           Sample.empty_world).
  - sample_roundtrips.
  - sample_priorities.
  - reflexivity.
Defined.

(** Priorities 3, 1, 2 pushed in that order are popped as 3, 2, 1. *)
Example priority_3_1_2 :
  (mapM (PriorityQueue.push Sample.priority_jobs)
     [Sample.task 3 "x"; Sample.task 1 "y"; Sample.task 2 "z"]
   ≫= λ _, mapM (PriorityQueue.pop Sample.priority_jobs) [0; 0; 0; 0])
    Sample.empty_world
  = (Ret [Sample.task 3 "x"; Sample.task 2 "z"; Sample.task 1 "y"; PyNone],
     Sample.empty_world).
Proof. vm_compute. reflexivity. Qed.

(** Two distinct tasks of one priority are both stored and both popped, in
    the order of their bytes; the same task pushed twice is stored once. *)
Example priority_ties :
  (mapM (PriorityQueue.push Sample.priority_jobs)
     [Sample.task 5 "b"; Sample.task 5 "a"; Sample.task 5 "b"]
   ≫= λ _, mapM (PriorityQueue.pop Sample.priority_jobs) [0; 0; 0])
    Sample.empty_world
  = (Ret [Sample.task 5 "a"; Sample.task 5 "b"; PyNone], Sample.empty_world).
Proof. vm_compute. reflexivity. Qed.

(** Scores are doubles: [2 ^ 53 + 1] is stored as [2 ^ 53], and [2 ^ 1024]
    is not a score. *)
Example scores_are_doubles :
  Redis.parse_score (2 ^ 53 + 1) = Some (2 ^ 53)
  ∧ Redis.parse_score (2 ^ 53 + 3) = Some (2 ^ 53 + 4)
  ∧ Redis.parse_score (- (2 ^ 1024)) = None.
Proof. repeat split; vm_compute; reflexivity. Qed.

(** C2, as stated, fails beyond the integers a double holds.  The tasks of
    priority [2 ^ 53 + 1] and [2 ^ 53] get the same score, so they pop in the
    order of their bytes, here the lower priority first; and the push of a
    task of priority [2 ^ 1024] raises, writing nothing. *)
Lemma priority_beyond_double_pops_lower_first :
  (mapM (PriorityQueue.push Sample.priority_jobs)
     [Sample.task (2 ^ 53 + 1) "y"; Sample.task (2 ^ 53) "x"]
   ≫= λ _, mapM (PriorityQueue.pop Sample.priority_jobs) [0; 0])
    Sample.empty_world
  = (Ret [Sample.task (2 ^ 53) "x"; Sample.task (2 ^ 53 + 1) "y"],
     Sample.empty_world)
  ∧ PriorityQueue.push Sample.priority_jobs (Sample.task (2 ^ 1024) "z")
      Sample.empty_world
    = (Raise ResponseError, Sample.empty_world).
Proof. split; vm_compute; reflexivity. Qed.

(** ** RFPDupeFilter *)

Section DupeFilter.
Context `{Host}.
Variable d : RFPDupeFilter.t.
Let k := RFPDupeFilter.key d.

(** [obj_seen] on a key that holds the set [S] (or no value, [S] empty):
    the answer is whether the fingerprint was in [S], and the fingerprint
    is in the set afterwards. *)
Lemma obj_seen_run X S r wt lg :
  Redis.as_set (r !! k) = Ret S →
  RFPDupeFilter.obj_seen d X (mkWorld r wt lg)
  = (Ret (bool_decide (obj_fingerprint X ∈ S)),
     mkWorld (<[k := RSet ({[obj_fingerprint X]} ∪ S)]> r) wt lg).
Proof.
  intros E. subst k. unfold RFPDupeFilter.obj_seen, Redis.sadd. run.
  rewrite E. cbn. by case_bool_decide.
Qed.

Lemma clear_run r wt lg :
  RFPDupeFilter.clear d (mkWorld r wt lg) = (Ret (), mkWorld (delete k r) wt lg).
Proof. done. Qed.

(** Calls of [obj_seen] only add to the set, and write no other key. *)
Lemma obj_seen_all others S r wt lg :
  Redis.as_set (r !! k) = Ret S →
  ∃ answers r' S',
    mapM (RFPDupeFilter.obj_seen d) others (mkWorld r wt lg)
    = (Ret answers, mkWorld r' wt lg)
    ∧ Redis.as_set (r' !! k) = Ret S' ∧ S ⊆ S' ∧ delete k r' = delete k r.
Proof.
  revert S r. induction others as [|X others IH]; intros S r E.
  - by exists [], r, S.
  - destruct (IH ({[obj_fingerprint X]} ∪ S)
                (<[k := RSet ({[obj_fingerprint X]} ∪ S)]> r))
      as (answers & r' & S' & Run & E' & Sub & Del); [by rewrite lookup_insert_eq |].
    exists (bool_decide (obj_fingerprint X ∈ S) :: answers), r', S'.
    split; [| split; [done | split; [set_solver |]]].
    + eapply run_mapM_cons; [by apply obj_seen_run | done].
    + by rewrite Del, delete_insert_eq.
Qed.

End DupeFilter.

(** C3, as the code has it.  [obj_seen] answers whether the fingerprint was
    in the backing set, and leaves it there.  So the first [obj_seen X] after
    [clear], or on a filter whose key holds no value, answers false; after
    it, and after any further [obj_seen] calls, [obj_seen Y] for [Y] of the
    same fingerprint answers true; and after a [clear] it answers false
    again.  The key is assumed to hold a set or nothing. *)
Theorem seen_false_then_true `{Host} (d : RFPDupeFilter.t) (X Y : pyobj)
    (others : list pyobj) (S : gset string) (w : World) :
  obj_fingerprint Y = obj_fingerprint X →
  Redis.as_set (redis w !! RFPDupeFilter.key d) = Ret S →
  let k := RFPDupeFilter.key d in
  let fp := obj_fingerprint X in
  (* each call: was the fingerprint there? and now it is *)
  RFPDupeFilter.obj_seen d X w
    = (Ret (bool_decide (fp ∈ S)),
       mkWorld (<[k := RSet ({[fp]} ∪ S)]> (redis w)) (waited w) (logged w))
  (* first call on a key without a value *)
  ∧ (redis w !! k = None → (RFPDupeFilter.obj_seen d X w).1 = Ret false)
  (* first call after clear *)
  ∧ (RFPDupeFilter.clear d ≫= λ _, RFPDupeFilter.obj_seen d X) w
    = (Ret false,
       mkWorld (<[k := RSet {[fp]}]> (redis w)) (waited w) (logged w))
  (* later calls, until clear *)
  ∧ (∃ w', (RFPDupeFilter.obj_seen d X ≫= λ _,
            mapM (RFPDupeFilter.obj_seen d) others ≫= λ _,
            RFPDupeFilter.obj_seen d Y) w = (Ret true, w')
           ∧ ∃ S', Redis.as_set (redis w' !! k) = Ret S' ∧ fp ∈ S')
  (* and after clear again *)
  ∧ (RFPDupeFilter.obj_seen d X ≫= λ _,
     mapM (RFPDupeFilter.obj_seen d) others ≫= λ _,
     RFPDupeFilter.clear d ≫= λ _,
     RFPDupeFilter.obj_seen d Y) w
    = (Ret false,
       mkWorld (<[k := RSet {[fp]}]> (redis w)) (waited w) (logged w)).
Proof.
  intros EY E k fp. destruct w as [r wt lg]; cbn in *.
  pose proof (obj_seen_run d X S r wt lg E) as Run.
  destruct (obj_seen_all d others ({[fp]} ∪ S) (<[k := RSet ({[fp]} ∪ S)]> r) wt lg)
    as (answers & r' & S' & RunO & E' & Sub & Del); [by rewrite lookup_insert_eq |].
  rewrite delete_insert_eq in Del.
  split; [done | split; [| split; [| split]]].
  - intros N. rewrite Run. cbn. subst k. rewrite N in E. injection E as <-.
    by rewrite bool_decide_eq_false_2.
  - erewrite run_bind; [| apply clear_run].
    rewrite (obj_seen_run d X ∅); [| by rewrite lookup_delete_eq].
    rewrite bool_decide_eq_false_2; [| set_solver]. fold k fp.
    by rewrite insert_delete_eq, union_empty_r_L.
  - eexists. split.
    + erewrite run_bind; [| exact Run]. erewrite run_bind; [| exact RunO].
      rewrite (obj_seen_run d Y S'); [| done]. rewrite EY. fold fp.
      rewrite bool_decide_eq_true_2; [done | set_solver].
    + cbn. exists ({[fp]} ∪ S').
      rewrite lookup_insert_eq. split; [done | set_solver].
  - erewrite run_bind; [| exact Run]. erewrite run_bind; [| exact RunO].
    erewrite run_bind; [| apply clear_run].
    rewrite (obj_seen_run d Y ∅); [| by rewrite lookup_delete_eq].
    rewrite bool_decide_eq_false_2; [| set_solver]. rewrite Del, EY. fold k fp.
    by rewrite insert_delete_eq, union_empty_r_L.
Qed.

Lemma seen_false_then_true_witness :
  (* a list and a tuple have the same sample fingerprint *)
  (RFPDupeFilter.clear Sample.filter ≫= λ _,
   RFPDupeFilter.obj_seen Sample.filter (PyList [])) Sample.empty_world
    = (Ret false, mkWorld (<["dupefilter:1" := RSet {["?"]}]> ∅) 0 [])
  ∧ ∃ w', (RFPDupeFilter.obj_seen Sample.filter (PyList []) ≫= λ _,
           mapM (RFPDupeFilter.obj_seen Sample.filter) [PyInt 7] ≫= λ _,
           RFPDupeFilter.obj_seen Sample.filter (PyTuple [])) Sample.empty_world
          = (Ret true, w').
Proof.
  destruct (seen_false_then_true Sample.filter (PyList []) (PyTuple []) [PyInt 7] ∅
              Sample.empty_world) as (_ & _ & C & (w' & T & _) & _).
  - reflexivity.
  - reflexivity.
  - split; [exact C | by exists w'].
Defined.

(** C3, as stated, fails: constructing a filter does not empty its set.  A
    second filter constructed on the key of a first one answers true to its
    first [obj_seen] of a task the first filter has seen. *)
Lemma seen_true_after_construction :
  (RFPDupeFilter.obj_seen (RFPDupeFilter.init "dupefilter:1" false) (PyStr "job")
     (RFPDupeFilter.obj_seen (RFPDupeFilter.init "dupefilter:1" false) (PyStr "job")
        Sample.empty_world).2).1
  = Ret true.
Proof. vm_compute. reflexivity. Qed.

(** ** Schedulers *)

Lemma bind_inv {A B} (m : M A) (f : A → M B) (w w' : World) (b : B) :
  (m ≫= f) w = (Ret b, w') → ∃ a w1, m w = (Ret a, w1) ∧ f a w1 = (Ret b, w').
Proof.
  unfold mbind, M_bind. destruct (m w) as [[a|e] w1]; [| done].
  intros E. by exists a, w1.
Qed.

Lemma Queue_push_run (q : Queue) (t : pyobj) r r' wt lg :
  after_push q t r r' →
  Queue_push q t (mkWorld r wt lg) = (Ret (), mkWorld r' wt lg).
Proof.
  intros (r0 & d & E & A). unfold Queue_push. destruct (cls q).
  - destruct A as (l & -> & ->). by apply FifoQueue_push_run.
  - destruct A as (p & z & P & B & -> & ->).
    apply (PriorityQueue_push_run q t (- p, d)). split; [done |].
    cbn. rewrite Z.opp_involutive. by split.
  - destruct A as (l & -> & ->). by apply (FifoQueue_push_run q).
Qed.

Lemma Queue_push_first (q : Queue) (X : pyobj) r wt lg :
  pushable q X → r !! key q = None →
  ∃ v, after_push q X r (<[key q := v]> r)
       ∧ Queue_len q (mkWorld (<[key q := v]> r) wt lg)
         = (Ret 1, mkWorld (<[key q := v]> r) wt lg).
Proof.
  intros [[d E] P] N. unfold Queue_len, after_push.
  pose proof (delete_id r (key q) N) as D.
  destruct (cls q) eqn:C.
  - exists (RList [d]). split.
    + exists r, d. split; [done |]. by exists [].
    + unfold FifoQueue.len, Redis.llen. run. by rewrite lookup_insert_eq.
  - destruct P as (p & P & B); [done |]. exists (RZSet [(- p, d)]). split.
    + exists r, d. split; [done |]. by exists p, [].
    + unfold PriorityQueue.len, Redis.zcard. run. by rewrite lookup_insert_eq.
  - exists (RList [d]). split.
    + exists r, d. split; [done |]. by exists [].
    + unfold LifoQueue.len, Redis.llen. run. by rewrite lookup_insert_eq.
Qed.

(** The length of a queue is read from the store alone. *)
Lemma Queue_len_frame (q : Queue) r wt lg wt' lg' (n : Z) :
  Queue_len q (mkWorld r wt lg) = (Ret n, mkWorld r wt lg) →
  Queue_len q (mkWorld r wt' lg') = (Ret n, mkWorld r wt' lg').
Proof.
  unfold Queue_len, FifoQueue.len, PriorityQueue.len, LifoQueue.len,
         Redis.llen, Redis.zcard.
  run.
  destruct (cls q);
    [destruct (Redis.as_list _) | destruct (Redis.as_zset _) | destruct (Redis.as_list _)];
    congruence.
Qed.

(** *** DupeFilterScheduler.enqueue *)

Section DupeFilterEnqueue.
Context `{Host}.
Variable self : DupeFilterScheduler.t.
Variable d : RFPDupeFilter.t.
Variable q : Queue.
Hypothesis opened_df : DupeFilterScheduler.df self = Some d.
Hypothesis opened_queue : Scheduler.queue (DupeFilterScheduler.base self) = Some q.

(** The fingerprint is in the set: the task is dropped, and nothing in the
    store changes. *)
Lemma enqueue_seen X S w :
  Redis.as_set (redis w !! RFPDupeFilter.key d) = Ret S →
  obj_fingerprint X ∈ S →
  ∃ self' lg,
    DupeFilterScheduler.enqueue self X w
    = (Ret (false, self'), mkWorld (redis w) (waited w) lg)
    ∧ DupeFilterScheduler.base self' = DupeFilterScheduler.base self
    ∧ is_Some (DupeFilterScheduler.df self').
Proof.
  intros E I. destruct w as [r wt lg]; cbn in *.
  unfold DupeFilterScheduler.enqueue. rewrite opened_df. cbn [attr].
  rewrite run_mret_bind. erewrite run_bind; [| by apply obj_seen_run].
  rewrite bool_decide_eq_true_2; [| done].
  assert (<[RFPDupeFilter.key d := RSet ({[obj_fingerprint X]} ∪ S)]> r = r) as ->.
  { apply insert_id. destruct (r !! RFPDupeFilter.key d) as [[]|]; try done.
    - injection E as ->. do 2 f_equal.
      symmetry. by apply subseteq_union_1_L, singleton_subseteq_l.
    - injection E as <-. by apply not_elem_of_empty in I. }
  unfold RFPDupeFilter.log.
  destruct (RFPDupeFilter.debug d); [| destruct (RFPDupeFilter.logdupes d)];
    run; by eexists _, _.
Qed.

(** The fingerprint is not in the set: it is added, and then [X] is pushed. *)
Lemma enqueue_unseen X S w r' :
  Redis.as_set (redis w !! RFPDupeFilter.key d) = Ret S →
  obj_fingerprint X ∉ S →
  after_push q X
    (<[RFPDupeFilter.key d := RSet ({[obj_fingerprint X]} ∪ S)]> (redis w)) r' →
  DupeFilterScheduler.enqueue self X w
  = (Ret (true, self), mkWorld r' (waited w) (logged w)).
Proof.
  intros E I A. destruct w as [r wt lg]; cbn in *.
  unfold DupeFilterScheduler.enqueue. rewrite opened_df. cbn [attr].
  rewrite run_mret_bind. erewrite run_bind; [| by apply obj_seen_run].
  rewrite bool_decide_eq_false_2; [| done]. rewrite opened_queue. cbn [attr].
  rewrite run_mret_bind. by erewrite run_bind; [| by apply Queue_push_run].
Qed.

End DupeFilterEnqueue.

(** C4. On an opened [DupeFilterScheduler] whose filter key holds a set (or
    nothing): [enqueue X] with the fingerprint of [X] in the set returns
    [False] and leaves the store as it is; with the fingerprint not in the
    set it adds the fingerprint, pushes [X] to the queue and returns [True].
    Two [enqueue X] in a row on an empty queue, the filter and the queue on
    different keys: the first returns [True], the second [False], and the
    length of the scheduler is 1 after each.  [X] is assumed to be a task
    [push] accepts: the serializer round-trips it and, on a priority queue,
    its priority is an integer of at most [2 ^ 53] in magnitude. *)
Theorem enqueue_filters_duplicates `{Host} (self : DupeFilterScheduler.t)
    (d : RFPDupeFilter.t) (q : Queue) (X : pyobj) (S : gset string) (w : World) :
  DupeFilterScheduler.df self = Some d →
  Scheduler.queue (DupeFilterScheduler.base self) = Some q →
  Redis.as_set (redis w !! RFPDupeFilter.key d) = Ret S →
  (obj_fingerprint X ∈ S →
     ∃ self' lg,
       DupeFilterScheduler.enqueue self X w
       = (Ret (false, self'), mkWorld (redis w) (waited w) lg))
  ∧ (obj_fingerprint X ∉ S →
     ∀ r', after_push q X
             (<[RFPDupeFilter.key d := RSet ({[obj_fingerprint X]} ∪ S)]> (redis w)) r' →
       DupeFilterScheduler.enqueue self X w
       = (Ret (true, self), mkWorld r' (waited w) (logged w)))
  ∧ (obj_fingerprint X ∉ S → RFPDupeFilter.key d ≠ key q →
     redis w !! key q = None → pushable q X →
     ∃ w1 self2 w2,
       DupeFilterScheduler.enqueue self X w = (Ret (true, self), w1)
       ∧ DupeFilterScheduler.len self w1 = (Ret 1, w1)
       ∧ DupeFilterScheduler.enqueue self X w1 = (Ret (false, self2), w2)
       ∧ redis w2 = redis w1
       ∧ DupeFilterScheduler.len self2 w2 = (Ret 1, w2)).
Proof.
  intros Od Oq E. split; [| split].
  - intros I. destruct (enqueue_seen self d Od X S w E I) as (self' & lg & R & _).
    by exists self', lg.
  - intros I r' A. by apply (enqueue_unseen self d q Od Oq X S).
  - intros I Ne N P. destruct w as [r wt lg]; cbn in *.
    set (r1 := <[RFPDupeFilter.key d := RSet ({[obj_fingerprint X]} ∪ S)]> r).
    destruct (Queue_push_first q X r1 wt lg P) as (v & A & Len).
    { unfold r1. by rewrite lookup_insert_ne. }
    set (w1 := mkWorld (<[key q := v]> r1) wt lg) in *.
    assert (DupeFilterScheduler.enqueue self X (mkWorld r wt lg)
            = (Ret (true, self), w1)) as R1.
    { by apply (enqueue_unseen self d q Od Oq X S). }
    destruct (enqueue_seen self d Od X ({[obj_fingerprint X]} ∪ S) w1)
      as (self2 & lg2 & R2 & B2 & _).
    { cbn. rewrite lookup_insert_ne; [| done]. unfold r1.
      by rewrite lookup_insert_eq. }
    { set_solver. }
    exists w1, self2, (mkWorld (redis w1) (waited w1) lg2).
    split; [done | split; [| split; [done | split; [done |]]]].
    + unfold DupeFilterScheduler.len, Scheduler.len. by rewrite Oq.
    + unfold DupeFilterScheduler.len, Scheduler.len. rewrite B2, Oq.
      by apply (Queue_len_frame q _ wt lg).
Qed.

(** The sample schedulers are what [__init__] and then [open] produce. *)
Example sample_schedulers_opened :
  (∃ s, Scheduler.init false false "queue:1" Fifo 0 (Some Sample.codec) = Ret s
        ∧ Scheduler.open s Sample.empty_world
          = (Ret Sample.scheduler, Sample.empty_world))
  ∧ (∃ s, PipeScheduler.init false false "queue_in:1" Fifo "queue_out:1" Fifo 0
            (Some Sample.codec) = Ret s
          ∧ PipeScheduler.open s Sample.empty_world
            = (Ret Sample.pipe_scheduler, Sample.empty_world))
  ∧ (∃ s, DupeFilterScheduler.init false false "queue:1" Fifo "dupefilter:1" false 0
            (Some Sample.codec) = Ret s
          ∧ DupeFilterScheduler.open s Sample.empty_world
            = (Ret Sample.dupe_scheduler, Sample.empty_world)).
Proof. repeat split; eexists; split; reflexivity. Qed.

Lemma enqueue_filters_duplicates_witness :
  ∃ w1 self2 w2,
    DupeFilterScheduler.enqueue Sample.dupe_scheduler (PyStr "job") Sample.empty_world
    = (Ret (true, Sample.dupe_scheduler), w1)
    ∧ DupeFilterScheduler.len Sample.dupe_scheduler w1 = (Ret 1, w1)
    ∧ DupeFilterScheduler.enqueue Sample.dupe_scheduler (PyStr "job") w1
      = (Ret (false, self2), w2)
    ∧ redis w2 = redis w1
    ∧ DupeFilterScheduler.len self2 w2 = (Ret 1, w2).
Proof.
  destruct (enqueue_filters_duplicates Sample.dupe_scheduler Sample.filter
              Sample.queue_1 (PyStr "job") ∅ Sample.empty_world)
    as (_ & _ & Twice).
  - reflexivity.
  - reflexivity.
  - reflexivity.
  - apply Twice.
    + apply not_elem_of_empty.
    + discriminate.
    + reflexivity.
    + split; [eexists; sample_encodes | discriminate].
Defined.

(** *** What [pop] takes next *)

Lemma Queue_pop_next (q : Queue) (d : string) (t : pyobj) r r' wt lg (timeout : Z) :
  next_item q d r r' → decodes (serializer q) d t → d ≠ "" →
  Queue_pop q timeout (mkWorld r wt lg) = (Ret t, mkWorld r' wt lg).
Proof.
  intros [r0 N] Dec Nd. unfold Queue_pop. destruct (cls q).
  - destruct N as (l & -> & ->). by apply FifoQueue_pop_run.
  - destruct N as (score & z & -> & ->).
    by apply (PriorityQueue_pop_run q t (score, d)).
  - destruct N as (l & -> & ->). by apply LifoQueue_pop_run.
Qed.

Lemma next_item_other_key (q : Queue) (d : string) r r' (k : string) :
  next_item q d r r' → k ≠ key q → r' !! k = r !! k.
Proof.
  intros [r0 N] Ne.
  assert (∀ l, Redis.store_list (key q) l r0 !! k = r0 !! k) as L.
  { intros []; unfold Redis.store_list;
      by rewrite ?lookup_delete_ne, ?lookup_insert_ne. }
  assert (∀ z, Redis.store_zset (key q) z r0 !! k = r0 !! k) as Z.
  { intros []; unfold Redis.store_zset;
      by rewrite ?lookup_delete_ne, ?lookup_insert_ne. }
  destruct (cls q);
    [destruct N as (l & -> & ->) | destruct N as (score & z & -> & ->)
    | destruct N as (l & -> & ->)]; by rewrite ?L, ?Z.
Qed.

Lemma Queue_pop_empty (q : Queue) r wt lg (timeout : Z) :
  r !! key q = None →
  ∃ wt', Queue_pop q timeout (mkWorld r wt lg) = (Ret PyNone, mkWorld r wt' lg).
Proof.
  intros E. unfold Queue_pop. destruct (cls q).
  - eexists. by apply FifoQueue_pop_empty.
  - eexists. by apply PriorityQueue_pop_empty.
  - exists (if 0 <? timeout then wt + timeout else wt).
    unfold LifoQueue.pop, Redis.blpop, Redis.lpop. run.
    destruct (0 <? timeout); cbn; by rewrite E.
Qed.

(** *** dequeue and pipe *)

Lemma Scheduler_dequeue_run (self : Scheduler.t) (q : Queue) (t : pyobj) w w' :
  Scheduler.queue self = Some q →
  Queue_pop q (Scheduler.idle_before_close self) w = (Ret t, w') →
  Scheduler.dequeue self w = (Ret (if truthy t then t else PyNone), w').
Proof.
  intros O P. unfold Scheduler.dequeue. rewrite O. cbn [attr].
  rewrite run_mret_bind. erewrite run_bind; [| exact P]. by destruct (truthy t).
Qed.

Lemma PipeScheduler_dequeue_in_run (self : PipeScheduler.t) (q : Queue) (t : pyobj) w w' :
  PipeScheduler.queue_in self = Some q →
  Queue_pop q (PipeScheduler.idle_before_close self) w = (Ret t, w') →
  PipeScheduler.dequeue self "in" w = (Ret (if truthy t then t else PyNone), w').
Proof.
  intros O P. unfold PipeScheduler.dequeue. cbn [String.eqb Ascii.eqb Bool.eqb].
  rewrite O. cbn [attr].
  erewrite run_bind; [| rewrite run_mret_bind; exact P]. by destruct (truthy t).
Qed.

(** [pipe] on an inbound queue whose next item reads as a true object [t]:
    the item leaves the inbound queue and [t] is pushed to the outbound one. *)
Lemma pipe_moves_truthy_item (self : PipeScheduler.t) (qi qo : Queue) (d : string)
    (t : pyobj) r r1 r2 wt lg :
  PipeScheduler.queue_in self = Some qi →
  PipeScheduler.queue_out self = Some qo →
  next_item qi d r r1 → decodes (serializer qi) d t → d ≠ "" →
  truthy t = true →
  after_push qo t r1 r2 →
  PipeScheduler.pipe self (mkWorld r wt lg) = (Ret true, mkWorld r2 wt lg).
Proof.
  intros Oi Oo N Dec Nd T A. unfold PipeScheduler.pipe.
  erewrite run_bind;
    [| eapply PipeScheduler_dequeue_in_run; [exact Oi | by eapply Queue_pop_next]].
  rewrite T. unfold PipeScheduler.enqueue. cbn [String.eqb Ascii.eqb Bool.eqb].
  rewrite Oo. cbn [attr]. rewrite T.
  erewrite run_bind; [done |].
  rewrite run_mret_bind. by apply Queue_push_run.
Qed.

(** [pipe] on an empty inbound queue returns [False] and writes nothing. *)
Lemma pipe_on_empty_inbound (self : PipeScheduler.t) (qi : Queue) r wt lg :
  PipeScheduler.queue_in self = Some qi → r !! key qi = None →
  ∃ wt', PipeScheduler.pipe self (mkWorld r wt lg) = (Ret false, mkWorld r wt' lg).
Proof.
  intros Oi E.
  destruct (Queue_pop_empty qi r wt lg (PipeScheduler.idle_before_close self) E)
    as [wt' P].
  exists wt'. unfold PipeScheduler.pipe.
  by erewrite run_bind; [| by eapply PipeScheduler_dequeue_in_run].
Qed.



(** C5 fails on the code for a task that is false as a Python value.  The
    integer 0 is put on the inbound queue; [pipe] takes it off, returns
    [False] and pushes nothing: both queues are empty afterwards.  The
    integer 1 is moved to the outbound queue. *)
Theorem pipe_loses_falsy_item :
  (PipeScheduler.enqueue Sample.pipe_scheduler (PyInt 0) "in" ≫= λ _,
   PipeScheduler.pipe Sample.pipe_scheduler) Sample.empty_world
  = (Ret false, Sample.empty_world)
  ∧ (PipeScheduler.enqueue Sample.pipe_scheduler (PyInt 0) "in") Sample.empty_world
    = (Ret true, mkWorld (<["queue_in:1" := RList ["Iz"]]> ∅) 0 [])
  ∧ (PipeScheduler.enqueue Sample.pipe_scheduler (PyInt 1) "in" ≫= λ _,
     PipeScheduler.pipe Sample.pipe_scheduler) Sample.empty_world
    = (Ret true, mkWorld (<["queue_out:1" := RList ["I+1"]]> ∅) 0 []).
Proof. repeat split; vm_compute; reflexivity. Qed.

(** *** close *)

Lemma Queue_len_deleted (q : Queue) r wt lg :
  Queue_len q (mkWorld (delete (key q) r) wt lg)
  = (Ret 0, mkWorld (delete (key q) r) wt lg).
Proof.
  unfold Queue_len, FifoQueue.len, PriorityQueue.len, LifoQueue.len,
         Redis.llen, Redis.zcard.
  destruct (cls q); run; by rewrite lookup_delete_eq.
Qed.

(** C6. [close] on an opened [Scheduler] deletes the key of the queue when
    [persist] is false, and on an opened [DupeFilterScheduler] the key of the
    filter and the key of the queue: the lengths are then 0 and no other key
    is written.  When [persist] is true [close] leaves the world as it is. *)
Theorem close_flushes_unless_persist (s : Scheduler.t) (q : Queue)
    (ds : DupeFilterScheduler.t) (d : RFPDupeFilter.t) (q' : Queue) (w : World) :
  Scheduler.queue s = Some q →
  DupeFilterScheduler.df ds = Some d →
  Scheduler.queue (DupeFilterScheduler.base ds) = Some q' →
  (Scheduler.persist s = false →
     ∃ w', Scheduler.close s w = (Ret (), w')
           ∧ w' = mkWorld (delete (key q) (redis w)) (waited w) (logged w)
           ∧ Scheduler.len s w' = (Ret 0, w'))
  ∧ (Scheduler.persist s = true → Scheduler.close s w = (Ret (), w))
  ∧ (Scheduler.persist (DupeFilterScheduler.base ds) = false →
     ∃ w', DupeFilterScheduler.close ds w = (Ret (), w')
           ∧ w' = mkWorld (delete (key q') (delete (RFPDupeFilter.key d) (redis w)))
                          (waited w) (logged w)
           ∧ DupeFilterScheduler.len ds w' = (Ret 0, w')
           ∧ RFPDupeFilter.len d w' = (Ret 0, w'))
  ∧ (Scheduler.persist (DupeFilterScheduler.base ds) = true →
     DupeFilterScheduler.close ds w = (Ret (), w)).
Proof.
  intros O Od Oq. destruct w as [r wt lg].
  split; [| split; [| split]]; intros P.
  - eexists. split; [| split; [reflexivity |]].
    + unfold Scheduler.close, Scheduler.close_with, Scheduler.flush.
      by rewrite P, O.
    + unfold Scheduler.len. rewrite O. apply Queue_len_deleted.
  - unfold Scheduler.close, Scheduler.close_with. by rewrite P.
  - eexists. split; [| split; [reflexivity | split]].
    + unfold DupeFilterScheduler.close, Scheduler.close_with,
             DupeFilterScheduler.flush.
      by rewrite P, Od, Oq.
    + unfold DupeFilterScheduler.len, Scheduler.len. rewrite Oq.
      apply Queue_len_deleted.
    + unfold RFPDupeFilter.len, Redis.scard. run.
      destruct (decide (RFPDupeFilter.key d = key q')) as [-> | Ne].
      * by rewrite lookup_delete_eq.
      * by rewrite lookup_delete_ne, lookup_delete_eq.
  - unfold DupeFilterScheduler.close, Scheduler.close_with. by rewrite P.
Qed.

Lemma close_flushes_unless_persist_witness :
  ∃ w', Scheduler.close Sample.scheduler
          (mkWorld (<["queue:1" := RList ["Sjob"]]> ∅) 0 []) = (Ret (), w')
        ∧ w' = mkWorld (delete "queue:1" (<["queue:1" := RList ["Sjob"]]> ∅)) 0 []
        ∧ Scheduler.len Sample.scheduler w' = (Ret 0, w').
Proof.
  destruct (close_flushes_unless_persist Sample.scheduler Sample.queue_1
              Sample.dupe_scheduler Sample.filter Sample.queue_1
              (mkWorld (<["queue:1" := RList ["Sjob"]]> ∅) 0 []))
    as (C & _).
  - reflexivity.
  - reflexivity.
  - reflexivity.
  - apply C. reflexivity.
Defined.

(** *** PriorityQueue.pop and its timeout *)

(** C7. [PriorityQueue.pop] does not look at its timeout: two timeouts give
    the same result and the same world, and no time is spent waiting. *)
Theorem priority_pop_ignores_timeout (q : Queue) (t1 t2 : Z) (w : World) :
  PriorityQueue.pop q t1 w = PriorityQueue.pop q t2 w
  ∧ waited (PriorityQueue.pop q t1 w).2 = waited w.
Proof.
  split; [reflexivity |].
  unfold PriorityQueue.pop, Redis.zrange_zremrangebyrank_0_0, Base._unserialize.
  run. destruct (Redis.as_zset _) as [[|a z]|]; cbn; try done.
  destruct (loads (serializer q)) as [g|]; cbn; [| done].
  by destruct (g a.2).
Qed.

(** By contrast a FIFO pop waits for its timeout on an empty queue. *)
Example fifo_pop_waits :
  FifoQueue.pop Sample.fifo_jobs 2 Sample.empty_world = (Ret PyNone, mkWorld ∅ 2 [])
  ∧ PriorityQueue.pop Sample.priority_jobs 2 Sample.empty_world
    = (Ret PyNone, Sample.empty_world).
Proof. split; reflexivity. Qed.

(** *** Construction *)

(** C8. The three schedulers refuse a negative [idle_before_close] with a
    [TypeError] and are constructed for any other; a queue refuses a
    serializer without [loads] or without [dumps] with a [TypeError], and
    then nothing is written. *)
Theorem construction_errors `{Host} (persist flush_on_start : bool)
    (queue_key queue_out_key dupefilter_key : string) (c c_out : queue_class)
    (dupefilter_debug : bool) (idle_before_close : Z)
    (serializer : option Serializer) (ser : Serializer) (w : World) :
  (idle_before_close < 0 →
     Scheduler.init persist flush_on_start queue_key c idle_before_close serializer
       = Raise TypeError
     ∧ PipeScheduler.init persist flush_on_start queue_key c queue_out_key c_out
         idle_before_close serializer = Raise TypeError
     ∧ DupeFilterScheduler.init persist flush_on_start queue_key c dupefilter_key
         dupefilter_debug idle_before_close serializer = Raise TypeError)
  ∧ (0 ≤ idle_before_close →
     (∃ s, Scheduler.init persist flush_on_start queue_key c idle_before_close
             serializer = Ret s)
     ∧ (∃ s, PipeScheduler.init persist flush_on_start queue_key c queue_out_key
               c_out idle_before_close serializer = Ret s)
     ∧ (∃ s, DupeFilterScheduler.init persist flush_on_start queue_key c
               dupefilter_key dupefilter_debug idle_before_close serializer = Ret s))
  ∧ (loads ser = None ∨ dumps ser = None →
     Base.init c queue_key (Some ser) w = (Raise TypeError, w))
  ∧ (is_Some (loads ser) → is_Some (dumps ser) →
     Base.init c queue_key (Some ser) w = (Ret (mkQueue c queue_key ser), w)).
Proof.
  split; [| split; [| split]].
  - intros N%Z.ltb_lt.
    unfold DupeFilterScheduler.init, Scheduler.init, PipeScheduler.init.
    by rewrite N.
  - intros N%Z.ltb_ge.
    unfold DupeFilterScheduler.init, Scheduler.init, PipeScheduler.init.
    rewrite N. by repeat split; eexists.
  - unfold Base.init. intros [E | E]; rewrite E; [done |].
    by destruct (loads ser).
  - unfold Base.init. by intros [g ->] [f ->].
Qed.

Lemma construction_errors_witness :
  Scheduler.init true false "queue:1" Fifo (-1) None = Raise TypeError
  ∧ (∃ s, Scheduler.init true false "queue:1" Fifo 0 None = Ret s)
  ∧ Base.init Fifo "queue:1" (Some (mkSerializer (Some Sample.sample_loads) None))
      Sample.empty_world = (Raise TypeError, Sample.empty_world).
Proof.
  destruct (construction_errors true false "queue:1" "queue_out:1" "dupefilter:1"
              Fifo Fifo false (-1) None
              (mkSerializer (Some Sample.sample_loads) None) Sample.empty_world)
    as (Neg & _ & Lacks & _).
  destruct (construction_errors true false "queue:1" "queue_out:1" "dupefilter:1"
              Fifo Fifo false 0 None Sample.codec Sample.empty_world)
    as (_ & Pos & _).
  split; [| split].
  - apply Neg. lia.
  - apply Pos. lia.
  - apply Lacks. by right.
Defined.

(** *** PipeScheduler and queue names *)

(** C9. With a queue name that is neither ['in'] nor ['out'],
    [PipeScheduler.enqueue] returns [True] and [PipeScheduler.dequeue]
    returns [None], and neither reads or writes anything. *)
Theorem pipe_unknown_queue_name (self : PipeScheduler.t) (obj : pyobj)
    (queue_name : string) (w : World) :
  queue_name ≠ "in" → queue_name ≠ "out" →
  PipeScheduler.enqueue self obj queue_name w = (Ret true, w)
  ∧ PipeScheduler.dequeue self queue_name w = (Ret PyNone, w).
Proof.
  intros Ni%String.eqb_neq No%String.eqb_neq.
  unfold PipeScheduler.enqueue, PipeScheduler.dequeue. by rewrite Ni, No.
Qed.

Lemma pipe_unknown_queue_name_witness :
  PipeScheduler.enqueue Sample.pipe_scheduler (PyStr "job") "sideways"
    (mkWorld (<["queue_in:1" := RList ["Sa"]]> ∅) 0 [])
  = (Ret true, mkWorld (<["queue_in:1" := RList ["Sa"]]> ∅) 0 [])
  ∧ PipeScheduler.dequeue Sample.pipe_scheduler "sideways"
      (mkWorld (<["queue_in:1" := RList ["Sa"]]> ∅) 0 [])
    = (Ret PyNone, mkWorld (<["queue_in:1" := RList ["Sa"]]> ∅) 0 []).
Proof.
  apply pipe_unknown_queue_name; discriminate.
Defined.

(** *** open *)

Lemma Base_init_reraised `{Host} (c : queue_class) (k : string)
    (ser : option Serializer) (q : Queue) (w w' : World) :
  reraise_TypeError (Base.init c k ser) w = (Ret q, w') →
  w' = w ∧ cls q = c ∧ key q = k
  ∧ is_Some (loads (serializer q)) ∧ is_Some (dumps (serializer q)).
Proof.
  unfold reraise_TypeError, Base.init.
  destruct (loads (if ser is Some s then s else picklecompat)) as [g|] eqn:L;
    [| done].
  destruct (dumps (if ser is Some s then s else picklecompat)) as [f|] eqn:D;
    [| done].
  intros [= <- <-]. cbn. rewrite L, D. by repeat split.
Qed.

(** A scheduler that [open] returns has its queue, on the configured key and
    of the configured class. *)
Lemma Scheduler_open_opened `{Host} (s0 s : Scheduler.t) (w0 w1 : World) :
  Scheduler.open s0 w0 = (Ret s, w1) →
  ∃ q, Scheduler.queue s = Some q
       ∧ key q = Scheduler.queue_key s0 ∧ cls q = Scheduler.queue_cls s0
       ∧ Scheduler.persist s = Scheduler.persist s0
       ∧ Scheduler.idle_before_close s = Scheduler.idle_before_close s0.
Proof.
  unfold Scheduler.open. intros E.
  apply bind_inv in E as (q & w & (-> & C & K & _)%Base_init_reraised & E).
  apply bind_inv in E as (_ & w' & _ & E).
  apply bind_inv in E as (n & w'' & _ & E).
  apply bind_inv in E as (_ & w''' & _ & [= <- _]).
  by exists q.
Qed.

Lemma PipeScheduler_open_opened `{Host} (s0 s : PipeScheduler.t) (w0 w1 : World) :
  PipeScheduler.open s0 w0 = (Ret s, w1) →
  ∃ qi qo, PipeScheduler.queue_in s = Some qi ∧ PipeScheduler.queue_out s = Some qo
           ∧ key qi = PipeScheduler.queue_in_key s0
           ∧ cls qi = PipeScheduler.queue_in_cls s0
           ∧ key qo = PipeScheduler.queue_out_key s0
           ∧ cls qo = PipeScheduler.queue_out_cls s0.
Proof.
  unfold PipeScheduler.open. intros E.
  apply bind_inv in E as (qi & w & (-> & Ci & Ki & _)%Base_init_reraised & E).
  apply bind_inv in E as (qo & w' & (-> & Co & Ko & _)%Base_init_reraised & E).
  apply bind_inv in E as (_ & w'' & _ & E).
  apply bind_inv in E as (a & wa & _ & E).
  apply bind_inv in E as (b & wb & _ & E).
  apply bind_inv in E as (_ & wc & _ & [= <- _]).
  by exists qi, qo.
Qed.

Lemma DupeFilterScheduler_open_opened `{Host} (s0 s : DupeFilterScheduler.t)
    (w0 w1 : World) :
  DupeFilterScheduler.open s0 w0 = (Ret s, w1) →
  ∃ d q, DupeFilterScheduler.df s = Some d
         ∧ Scheduler.queue (DupeFilterScheduler.base s) = Some q
         ∧ RFPDupeFilter.key d = DupeFilterScheduler.dupefilter_key s0
         ∧ key q = Scheduler.queue_key (DupeFilterScheduler.base s0)
         ∧ cls q = Scheduler.queue_cls (DupeFilterScheduler.base s0).
Proof.
  unfold DupeFilterScheduler.open. intros E.
  apply bind_inv in E as (q & w & (-> & C & K & _)%Base_init_reraised & E).
  apply bind_inv in E as (_ & w' & _ & E).
  apply bind_inv in E as (a & wa & _ & E).
  apply bind_inv in E as (b & wb & _ & E).
  apply bind_inv in E as (_ & wc & _ & [= <- _]).
  by eexists _, q.
Qed.

(** * Further properties of the queues, the filter and the schedulers *)

(** ** What a pop returns, whatever the serializer answers *)

Lemma Queue_pop_next_outcome (q : Queue) (d : string) g r r' wt lg (timeout : Z) :
  next_item q d r r' → loads (serializer q) = Some g →
  cls q = Priority ∨ d ≠ "" →
  Queue_pop q timeout (mkWorld r wt lg)
  = (match g d with Ret t => Ret t | Raise e => Raise e end, mkWorld r' wt lg).
Proof.
  intros [r0 N] Eg Nd. unfold Queue_pop. destruct (cls q) eqn:C.
  - destruct N as (l & -> & ->). destruct Nd as [? | Nd]; [done |].
    unfold FifoQueue.pop, Redis.brpop, Redis.rpop, Base._unserialize.
    rewrite Eg. run.
    destruct (0 <? timeout); cbn;
      rewrite as_list_store_list, last_snoc_some, removelast_snoc; cbn;
      rewrite store_list_twice, (bytes_truthy_nonempty _ Nd); by destruct (g d).
  - destruct N as (score & z & -> & ->).
    unfold PriorityQueue.pop, Redis.zrange_zremrangebyrank_0_0, Base._unserialize.
    rewrite Eg. run. rewrite as_zset_store_zset. cbn.
    rewrite store_zset_twice. by destruct (g d).
  - destruct N as (l & -> & ->). destruct Nd as [? | Nd]; [done |].
    unfold LifoQueue.pop, Redis.blpop, Redis.lpop, Base._unserialize.
    rewrite Eg. run.
    destruct (0 <? timeout); cbn;
      rewrite as_list_store_list; cbn;
      rewrite store_list_twice, (bytes_truthy_nonempty _ Nd); by destruct (g d).
Qed.

(** ** LifoQueue *)

Lemma Forall2_rev {A B} (R : A → B → Prop) (l : list A) (k : list B) :
  Forall2 R l k → Forall2 R (rev l) (rev k).
Proof.
  induction 1 as [|x y l k HR F IH]; cbn; [constructor |].
  apply Forall2_app; [done |]. by repeat constructor.
Qed.

Lemma LifoQueue_pop_all (q : Queue) ts ds timeouts r wt lg :
  Forall2 (encodes (serializer q)) ts ds → length timeouts = length ts →
  mapM (LifoQueue.pop q) timeouts (mkWorld (Redis.store_list (key q) ds r) wt lg)
  = (Ret ts, mkWorld (Redis.store_list (key q) [] r) wt lg).
Proof.
  intros F. revert timeouts.
  induction F as [|t d ts ds E F IH]; intros [|timeout timeouts] L;
    try discriminate; [done |].
  destruct E as (_ & Nd & Dec).
  eapply run_mapM_cons; [by apply LifoQueue_pop_run |].
  apply IH. by injection L.
Qed.

Lemma LifoQueue_pop_empty (q : Queue) r wt lg timeout :
  r !! key q = None →
  LifoQueue.pop q timeout (mkWorld r wt lg)
  = (Ret PyNone, mkWorld r (if 0 <? timeout then wt + timeout else wt) lg).
Proof.
  intros E. unfold LifoQueue.pop, Redis.blpop, Redis.lpop. run.
  destruct (0 <? timeout); cbn; by rewrite E.
Qed.

(** X1. Tasks pushed to a LIFO queue that starts empty come back from as many
    pops in the reverse of the order of the pushes, whatever the timeout of
    each pop, and the queue is empty again.  The serializer is assumed to
    write each pushed task as a non-empty byte string that reads back as the
    task. *)
Theorem lifo_pops_in_reverse_push_order (q : Queue) (tasks : list pyobj)
    (timeouts : list Z) (w : World) :
  Forall (roundtrips (serializer q)) tasks →
  redis w !! key q = None →
  length timeouts = length tasks →
  (mapM (LifoQueue.push q) tasks ≫= λ _, mapM (LifoQueue.pop q) timeouts) w
  = (Ret (rev tasks), w).
Proof.
  intros R E L. destruct (roundtrips_encodings _ _ R) as [ds F].
  destruct w as [r wt lg]; cbn in E.
  rewrite <- (store_list_absent _ _ E) at 1.
  erewrite run_bind; [| by apply (FifoQueue_push_all q)].
  rewrite app_nil_r, (LifoQueue_pop_all q (rev tasks));
    [| by apply Forall2_rev | by rewrite length_rev].
  by rewrite store_list_absent.
Qed.

Lemma lifo_pops_in_reverse_push_order_witness :
  (mapM (LifoQueue.push Sample.fifo_jobs) [PyStr "A"; PyStr "B"; PyStr "C"]
     ≫= λ _, mapM (LifoQueue.pop Sample.fifo_jobs) [0; 5; 0]) Sample.empty_world
  = (Ret [PyStr "C"; PyStr "B"; PyStr "A"], Sample.empty_world).
Proof.
  apply (lifo_pops_in_reverse_push_order Sample.fifo_jobs
           [PyStr "A"; PyStr "B"; PyStr "C"]).
  - sample_roundtrips.
  - reflexivity.
  - reflexivity.
Defined.

(** X2. A pop with a positive timeout on a FIFO or LIFO queue: when the list
    is empty the call waits for the timeout and returns [None], the store
    unchanged; when the list holds an item the call returns it at once. *)
Theorem blocking_pop_waits_only_when_empty (q : Queue) (timeout : Z) (d : string)
    (t : pyobj) r r' wt lg :
  0 < timeout → cls q ≠ Priority →
  (r !! key q = None →
     Queue_pop q timeout (mkWorld r wt lg)
     = (Ret PyNone, mkWorld r (wt + timeout) lg))
  ∧ (next_item q d r r' → decodes (serializer q) d t → d ≠ "" →
     Queue_pop q timeout (mkWorld r wt lg) = (Ret t, mkWorld r' wt lg)).
Proof.
  intros T%Z.ltb_lt C. split.
  - intros E. unfold Queue_pop. destruct (cls q); [| done |].
    + rewrite FifoQueue_pop_empty; [| done]. by rewrite T.
    + rewrite LifoQueue_pop_empty; [| done]. by rewrite T.
  - intros N Dec Nd. by apply (Queue_pop_next q d).
Qed.

Lemma blocking_pop_waits_only_when_empty_witness :
  Queue_pop Sample.fifo_jobs 2 Sample.empty_world = (Ret PyNone, mkWorld ∅ 2 [])
  ∧ Queue_pop Sample.fifo_jobs 2 (mkWorld (<["jobs" := RList ["SA"]]> ∅) 0 [])
    = (Ret (PyStr "A"), Sample.empty_world).
Proof.
  destruct (blocking_pop_waits_only_when_empty Sample.fifo_jobs 2 "SA" (PyStr "A")
              ∅ ∅ 0 []) as [E N]; [lia | discriminate |].
  destruct (blocking_pop_waits_only_when_empty Sample.fifo_jobs 2 "SA" (PyStr "A")
              (<["jobs" := RList ["SA"]]> ∅) ∅ 0 []) as [_ N'];
    [lia | discriminate |].
  split.
  - by apply E.
  - apply N'; [| eexists; split; reflexivity | discriminate].
    exists ∅, []. split; reflexivity.
Defined.

(** ** Lengths *)

Lemma Queue_len_list (q : Queue) l r wt lg :
  cls q ≠ Priority →
  Queue_len q (mkWorld (Redis.store_list (key q) l r) wt lg)
  = (Ret (Z.of_nat (length l)), mkWorld (Redis.store_list (key q) l r) wt lg).
Proof.
  intros C. unfold Queue_len, FifoQueue.len, LifoQueue.len, Redis.llen.
  destruct (cls q); [| done |]; run; by rewrite as_list_store_list.
Qed.

Lemma Queue_len_zset (q : Queue) z r wt lg :
  cls q = Priority →
  Queue_len q (mkWorld (Redis.store_zset (key q) z r) wt lg)
  = (Ret (Z.of_nat (length z)), mkWorld (Redis.store_zset (key q) z r) wt lg).
Proof.
  intros C. unfold Queue_len, PriorityQueue.len, Redis.zcard.
  rewrite C. run. by rewrite as_zset_store_zset.
Qed.

Lemma Queue_push_all_list (q : Queue) ts ds l r wt lg :
  cls q ≠ Priority → Forall2 (encodes (serializer q)) ts ds →
  mapM (Queue_push q) ts (mkWorld (Redis.store_list (key q) l r) wt lg)
  = (Ret ((λ _, ()) <$> ts),
     mkWorld (Redis.store_list (key q) (rev ds ++ l) r) wt lg).
Proof.
  intros C F. revert l. induction F as [|t d ts ds E F IH]; intros l; [done |].
  eapply run_mapM_cons.
  - apply Queue_push_run. exists r, d. split; [done |].
    destruct (cls q); [by exists l | done | by exists l].
  - rewrite IH. cbn [rev]. by rewrite <- app_assoc.
Qed.

(** X3. The length of a FIFO or LIFO queue counts the pushes: after pushing
    tasks to a queue that holds the list [l], [len] is the length of [l]
    plus the number of tasks pushed.  The same task pushed twice counts
    twice. *)
Theorem list_queue_len_counts_pushes (q : Queue) (tasks : list pyobj)
    (l : list string) r wt lg :
  cls q ≠ Priority →
  Forall (roundtrips (serializer q)) tasks →
  ∃ w', (mapM (Queue_push q) tasks ≫= λ _, Queue_len q)
          (mkWorld (Redis.store_list (key q) l r) wt lg)
        = (Ret (Z.of_nat (length l + length tasks)), w').
Proof.
  intros C R. destruct (roundtrips_encodings _ _ R) as [ds F].
  eexists. erewrite run_bind; [| by apply Queue_push_all_list].
  rewrite Queue_len_list; [| done].
  rewrite length_app, length_rev, (Forall2_length _ _ _ F).
  do 3 f_equal. lia.
Qed.

Lemma list_queue_len_counts_pushes_witness :
  ∃ w', (mapM (Queue_push Sample.fifo_jobs) [PyStr "A"; PyStr "A"] ≫= λ _,
         Queue_len Sample.fifo_jobs)
          (mkWorld (Redis.store_list "jobs" ["SB"] ∅) 0 [])
        = (Ret 3, w').
Proof.
  apply (list_queue_len_counts_pushes Sample.fifo_jobs [PyStr "A"; PyStr "A"]
           ["SB"] ∅ 0 []).
  - discriminate.
  - sample_roundtrips.
Defined.

Lemma queued_NoDup_items (s : Serializer) (ts : list pyobj) (items : list (Z * string)) :
  Forall2 (queued s) ts items → NoDup ts → NoDup items.
Proof.
  induction 1 as [|t a ts items Q F IH]; intros N; [constructor |].
  apply NoDup_cons in N as [Nt N]. constructor; [| by apply IH].
  intros I. destruct (Forall2_elem_of_r _ _ _ _ F I) as (t' & It' & Q').
  destruct (queued_same_member _ _ _ _ _ Q Q' eq_refl) as [-> _]. by apply Nt.
Qed.

(** What the sorted set holds after the pushes of [tasks] to an empty
    priority queue: one item for each distinct task. *)
Lemma priority_queue_contents (s : Serializer) (tasks : list pyobj) :
  Forall (roundtrips s) tasks → Forall bounded_priority tasks →
  ∃ items distinct,
    Forall2 (queued s) tasks items
    ∧ Forall2 (queued s) distinct (foldl zadd1 [] items)
    ∧ NoDup distinct ∧ (∀ t, t ∈ distinct ↔ t ∈ tasks).
Proof.
  intros R P. destruct (queued_items _ _ R P) as [items F].
  destruct (zadd_all_spec items) as (Sz & Nz & Iz).
  { intros a b Ia Ib Eq.
    destruct (Forall2_elem_of_r _ _ _ _ F Ia) as (t & _ & Qa).
    destruct (Forall2_elem_of_r _ _ _ _ F Ib) as (t' & _ & Qb).
    by destruct (queued_same_member _ _ _ _ _ Qa Qb Eq). }
  destruct (Forall2_choose_l (queued s) (foldl zadd1 [] items)) as [distinct Fd].
  { intros a Ia%Iz. destruct (Forall2_elem_of_r _ _ _ _ F Ia) as (t & _ & Qa).
    by exists t. }
  exists items, distinct.
  split; [done | split; [done | split; [by eapply queued_NoDup |]]].
  intros t. split; intros I.
  - destruct (Forall2_elem_of_l _ _ _ _ Fd I) as (a & Ia%Iz & [Ea _]).
    destruct (Forall2_elem_of_r _ _ _ _ F Ia) as (t' & It' & [Ea' _]).
    by rewrite (encodes_same_task _ _ _ _ Ea Ea').
  - destruct (Forall2_elem_of_l _ _ _ _ F I) as (a & Ia%Iz & [Ea _]).
    destruct (Forall2_elem_of_r _ _ _ _ Fd Ia) as (t' & It' & [Ea' _]).
    by rewrite (encodes_same_task _ _ _ _ Ea Ea').
Qed.

(** X4. The length of a priority queue counts the distinct tasks: after
    pushing tasks whose priority is an integer of at most [2 ^ 53] in
    magnitude to an empty priority queue, [len] is the length of a
    duplicate-free list with the same elements as the tasks pushed.  A task
    pushed again is not stored again. *)
Theorem priority_queue_len_counts_distinct (q : Queue) (tasks : list pyobj)
    (w : World) :
  cls q = Priority →
  Forall (roundtrips (serializer q)) tasks →
  Forall bounded_priority tasks →
  redis w !! key q = None →
  ∃ distinct w',
    (mapM (Queue_push q) tasks ≫= λ _, Queue_len q) w
    = (Ret (Z.of_nat (length distinct)), w')
    ∧ NoDup distinct ∧ (∀ t, t ∈ distinct ↔ t ∈ tasks)
    ∧ (NoDup tasks → length distinct = length tasks).
Proof.
  intros C R P E.
  destruct (priority_queue_contents _ _ R P) as (items & distinct & F & Fd & N & I).
  destruct w as [r wt lg]; cbn in E.
  exists distinct. eexists. split; [| split; [done | split; [done |]]].
  - unfold Queue_push. rewrite C.
    rewrite <- (delete_id r (key q) E) at 1.
    erewrite run_bind; [| by apply (PriorityQueue_push_all q tasks items [])].
    rewrite Queue_len_zset; [| done]. by rewrite (Forall2_length _ _ _ Fd).
  - intros Nt. apply Permutation_length. by apply NoDup_Permutation.
Qed.

Lemma priority_queue_len_counts_distinct_witness :
  ∃ distinct w',
    (mapM (Queue_push Sample.priority_jobs)
       [Sample.task 5 "b"; Sample.task 5 "a"; Sample.task 5 "b"] ≫= λ _,
     Queue_len Sample.priority_jobs) Sample.empty_world
    = (Ret (Z.of_nat (length distinct)), w')
    ∧ NoDup distinct
    ∧ (∀ t, t ∈ distinct
            ↔ t ∈ [Sample.task 5 "b"; Sample.task 5 "a"; Sample.task 5 "b"]).
Proof.
  destruct (priority_queue_len_counts_distinct Sample.priority_jobs
              [Sample.task 5 "b"; Sample.task 5 "a"; Sample.task 5 "b"]
              Sample.empty_world) as (distinct & w' & L & N & I & _).
  - reflexivity.
  - sample_roundtrips.
  - sample_priorities.
  - reflexivity.
  - by exists distinct, w'.
Defined.

(** The pushes of the witness leave two items. *)
Example priority_len_after_repeat :
  (mapM (Queue_push Sample.priority_jobs)
     [Sample.task 5 "b"; Sample.task 5 "a"; Sample.task 5 "b"] ≫= λ _,
   Queue_len Sample.priority_jobs) Sample.empty_world
  = (Ret 2, mkWorld (<["jobs" := RZSet [(-5, "T+101:a"); (-5, "T+101:b")]]> ∅) 0 []).
Proof. vm_compute. reflexivity. Qed.

(** ** clear *)

(** X5. [clear] of a queue deletes its key, whatever the key holds, and no
    other key: the queue then has length 0, a pop without timeout returns
    [None], and a second [clear] changes nothing. *)
Theorem clear_empties_and_is_idempotent (q : Queue) (w : World) :
  ∃ w', Queue_clear q w = (Ret (), w')
        ∧ w' = mkWorld (delete (key q) (redis w)) (waited w) (logged w)
        ∧ Queue_len q w' = (Ret 0, w')
        ∧ Queue_pop q 0 w' = (Ret PyNone, w')
        ∧ Queue_clear q w' = (Ret (), w').
Proof.
  destruct w as [r wt lg]. eexists.
  split; [reflexivity | split; [reflexivity | split; [| split]]].
  - apply Queue_len_deleted.
  - unfold Queue_pop. destruct (cls q).
    + by rewrite FifoQueue_pop_empty; [| apply lookup_delete_eq].
    + by rewrite PriorityQueue_pop_empty; [| apply lookup_delete_eq].
    + by rewrite LifoQueue_pop_empty; [| apply lookup_delete_eq].
  - unfold Queue_clear, Base.clear, Redis.delete. run. by rewrite delete_delete_eq.
Qed.

(** ** Pushes that fail *)

(** X6. A push that fails writes nothing.  When the serializer raises on the
    object, [push] of any queue class raises the same error; on a priority
    queue an object without a [priority] attribute raises [AttributeError]
    and one whose priority has no negation raises [TypeError].  In each case
    the world is unchanged. *)
Theorem failed_push_writes_nothing (q : Queue) (X : pyobj) (f : pyobj → outcome string)
    (w : World) :
  dumps (serializer q) = Some f →
  (∀ e, f X = Raise e → Queue_push q X w = (Raise e, w))
  ∧ (∀ d, cls q = Priority → f X = Ret d →
       getattr X "priority" = Raise AttributeError →
       Queue_push q X w = (Raise AttributeError, w))
  ∧ (∀ d v, cls q = Priority → f X = Ret d →
       getattr X "priority" = Ret v → py_neg v = Raise TypeError →
       Queue_push q X w = (Raise TypeError, w)).
Proof.
  intros Ef. unfold Queue_push, FifoQueue.push, PriorityQueue.push, LifoQueue.push,
                    Base._serialize.
  rewrite Ef. split; [| split].
  - intros e E. destruct (cls q); run; by rewrite E.
  - intros d C E G. rewrite C. run. by rewrite E, G.
  - intros d v C E G N. rewrite C. run. by rewrite E, G, N.
Qed.

Lemma failed_push_writes_nothing_witness :
  Queue_push Sample.fifo_jobs (PyBool true) Sample.empty_world
  = (Raise CodecError, Sample.empty_world)
  ∧ Queue_push Sample.priority_jobs (PyStr "A") Sample.empty_world
    = (Raise AttributeError, Sample.empty_world).
Proof.
  destruct (failed_push_writes_nothing Sample.fifo_jobs (PyBool true)
              Sample.sample_dumps Sample.empty_world) as (D & _); [reflexivity |].
  destruct (failed_push_writes_nothing Sample.priority_jobs (PyStr "A")
              Sample.sample_dumps Sample.empty_world) as (_ & A & _); [reflexivity |].
  split.
  - by apply D.
  - by apply (A "SA").
Defined.

(** ** Pops that lose the item *)

(** X7. [pop] removes the item before it reads it: when the serializer raises
    on the bytes of the next item, [pop] raises that error and the item is
    gone from the queue; [Scheduler.dequeue] does the same. *)
Theorem failed_decode_loses_item (s : Scheduler.t) (q : Queue) (d : string)
    (g : string → outcome pyobj) (e : exn) r r' wt lg (timeout : Z) :
  Scheduler.queue s = Some q →
  loads (serializer q) = Some g → g d = Raise e →
  cls q = Priority ∨ d ≠ "" →
  next_item q d r r' →
  Queue_pop q timeout (mkWorld r wt lg) = (Raise e, mkWorld r' wt lg)
  ∧ Scheduler.dequeue s (mkWorld r wt lg) = (Raise e, mkWorld r' wt lg).
Proof.
  intros O Eg Ed Nd N.
  assert (∀ timeout, Queue_pop q timeout (mkWorld r wt lg)
                     = (Raise e, mkWorld r' wt lg)) as P.
  { intros t. rewrite (Queue_pop_next_outcome q d g r r'); [| done | done | done].
    by rewrite Ed. }
  split; [done |]. unfold Scheduler.dequeue. rewrite O. cbn [attr].
  rewrite run_mret_bind. by erewrite run_bind_raise; [| apply P].
Qed.

Lemma failed_decode_loses_item_witness :
  Queue_pop Sample.queue_1 0 (mkWorld (<["queue:1" := RList ["garbage"]]> ∅) 0 [])
  = (Raise CodecError, Sample.empty_world)
  ∧ Scheduler.dequeue Sample.scheduler
      (mkWorld (<["queue:1" := RList ["garbage"]]> ∅) 0 [])
    = (Raise CodecError, Sample.empty_world).
Proof.
  apply (failed_decode_loses_item Sample.scheduler Sample.queue_1 "garbage"
           Sample.sample_loads CodecError _ ∅).
  - reflexivity.
  - reflexivity.
  - reflexivity.
  - right. discriminate.
  - exists ∅, []. split; reflexivity.
Defined.

(** X8. An item whose bytes are empty: a FIFO or LIFO [pop] removes it and
    returns [None] without asking the serializer, so the item is dropped; a
    priority [pop] removes it and returns what the serializer reads from the
    empty bytes. *)
Theorem empty_payload_is_dropped_by_list_queues (q : Queue)
    (g : string → outcome pyobj) r r' wt lg (timeout : Z) :
  next_item q "" r r' →
  (cls q ≠ Priority →
     Queue_pop q timeout (mkWorld r wt lg) = (Ret PyNone, mkWorld r' wt lg))
  ∧ (cls q = Priority → loads (serializer q) = Some g →
     Queue_pop q timeout (mkWorld r wt lg)
     = (match g "" with Ret t => Ret t | Raise e => Raise e end, mkWorld r' wt lg)).
Proof.
  intros N. split.
  - intros C. destruct N as [r0 N]. unfold Queue_pop.
    destruct (cls q); [| done |].
    + destruct N as (l & -> & ->).
      unfold FifoQueue.pop, Redis.brpop, Redis.rpop. run.
      destruct (0 <? timeout); cbn;
        rewrite as_list_store_list, last_snoc_some, removelast_snoc; cbn;
        by rewrite store_list_twice.
    + destruct N as (l & -> & ->).
      unfold LifoQueue.pop, Redis.blpop, Redis.lpop. run.
      destruct (0 <? timeout); cbn;
        rewrite as_list_store_list; cbn; by rewrite store_list_twice.
  - intros C Eg. apply (Queue_pop_next_outcome q ""); [done | done | by left].
Qed.

Lemma empty_payload_is_dropped_by_list_queues_witness :
  Queue_pop Sample.fifo_jobs 0 (mkWorld (<["jobs" := RList ["SA"; ""]]> ∅) 0 [])
  = (Ret PyNone, mkWorld (<["jobs" := RList ["SA"]]> ∅) 0 []).
Proof.
  destruct (empty_payload_is_dropped_by_list_queues Sample.fifo_jobs
              Sample.sample_loads (<["jobs" := RList ["SA"; ""]]> ∅)
              (<["jobs" := RList ["SA"]]> ∅) 0 [] 0) as [L _].
  - exists ∅, ["SA"]. split; reflexivity.
  - apply L. discriminate.
Defined.

(** ** Scheduler: enqueue and dequeue *)

Lemma Scheduler_enqueue_run (self : Scheduler.t) (q : Queue) (t : pyobj) w w' :
  Scheduler.queue self = Some q →
  Queue_push q t w = (Ret (), w') →
  Scheduler.enqueue self t w = (Ret true, w').
Proof.
  intros O P. unfold Scheduler.enqueue. rewrite O. cbn [attr].
  rewrite run_mret_bind. by erewrite run_bind; [| exact P].
Qed.

Lemma Scheduler_enqueue_all (self : Scheduler.t) (q : Queue) ts ds l r wt lg :
  Scheduler.queue self = Some q → cls q ≠ Priority →
  Forall2 (encodes (serializer q)) ts ds →
  mapM (Scheduler.enqueue self) ts (mkWorld (Redis.store_list (key q) l r) wt lg)
  = (Ret ((λ _, true) <$> ts),
     mkWorld (Redis.store_list (key q) (rev ds ++ l) r) wt lg).
Proof.
  intros O C F. revert l. induction F as [|t d ts ds E F IH]; intros l; [done |].
  eapply run_mapM_cons.
  - eapply Scheduler_enqueue_run; [done |]. apply Queue_push_run.
    exists r, d. split; [done |].
    destruct (cls q); [by exists l | done | by exists l].
  - rewrite IH. cbn [rev]. by rewrite <- app_assoc.
Qed.

Lemma Scheduler_dequeue_all_fifo {A} (self : Scheduler.t) (q : Queue) ts ds
    (calls : list A) r wt lg :
  Scheduler.queue self = Some q → cls q = Fifo →
  Forall2 (encodes (serializer q)) ts ds →
  Forall (λ t, truthy t = true) ts →
  length calls = length ts →
  mapM (λ _, Scheduler.dequeue self) calls
    (mkWorld (Redis.store_list (key q) (rev ds) r) wt lg)
  = (Ret ts, mkWorld (Redis.store_list (key q) [] r) wt lg).
Proof.
  intros O C F. revert calls.
  induction F as [|t d ts ds E F IH]; intros [|c calls] T L;
    try discriminate; [done |].
  apply Forall_cons in T as [Tt T]. destruct E as (_ & Nd & Dec).
  cbn [rev]. eapply run_mapM_cons.
  - erewrite Scheduler_dequeue_run; [| exact O |].
    + by rewrite Tt.
    + apply (Queue_pop_next q d); [| done | done].
      exists r. rewrite C. by exists (rev ds).
  - apply IH; [done | by injection L].
Qed.

(** X9. Through a [Scheduler] with a FIFO queue that starts empty, tasks
    that are true as Python values come back from [dequeue] in the order of
    their [enqueue], every [enqueue] returning [True], and the store is as
    before.  The serializer is assumed to round-trip the tasks. *)
Theorem scheduler_fifo_round_trip (self : Scheduler.t) (q : Queue)
    (tasks : list pyobj) (w : World) :
  Scheduler.queue self = Some q → cls q = Fifo →
  Forall (roundtrips (serializer q)) tasks →
  Forall (λ t, truthy t = true) tasks →
  redis w !! key q = None →
  (mapM (Scheduler.enqueue self) tasks w).1 = Ret ((λ _, true) <$> tasks)
  ∧ (mapM (Scheduler.enqueue self) tasks ≫= λ _,
     mapM (λ _, Scheduler.dequeue self) tasks) w = (Ret tasks, w).
Proof.
  intros O C R T E. destruct (roundtrips_encodings _ _ R) as [ds F].
  destruct w as [r wt lg]; cbn in E.
  assert (cls q ≠ Priority) as C' by (by rewrite C).
  pose proof (Scheduler_enqueue_all self q tasks ds [] r wt lg O C' F) as P.
  rewrite (store_list_absent _ _ E), app_nil_r in P.
  split; [by rewrite P |].
  erewrite run_bind; [| exact P].
  rewrite (Scheduler_dequeue_all_fifo self q tasks ds); try done.
  by rewrite store_list_absent.
Qed.

Lemma scheduler_fifo_round_trip_witness :
  (mapM (Scheduler.enqueue Sample.scheduler) [PyStr "A"; PyInt 7] ≫= λ _,
   mapM (λ _, Scheduler.dequeue Sample.scheduler) [PyStr "A"; PyInt 7])
    Sample.empty_world
  = (Ret [PyStr "A"; PyInt 7], Sample.empty_world).
Proof.
  apply (scheduler_fifo_round_trip Sample.scheduler Sample.queue_1
           [PyStr "A"; PyInt 7] Sample.empty_world).
  - reflexivity.
  - reflexivity.
  - sample_roundtrips.
  - repeat constructor.
  - reflexivity.
Defined.

(** ** Scheduler: open *)

(** X10. [Scheduler.open] with a serializer that has [loads] and [dumps]
    returns the scheduler with its queue on the configured key.  With
    [flush_on_start] it deletes that key and logs nothing; without it the
    store is left as it is, and when the queue is not empty one record is
    logged, whose message is the finished text with the length of the queue
    and the key, without arguments. *)
Theorem open_flushes_only_on_start `{Host} (s0 : Scheduler.t) (ser : Serializer)
    (n : Z) (w : World) :
  Scheduler.serializer s0 = Some ser →
  is_Some (loads ser) → is_Some (dumps ser) →
  let q := mkQueue (Scheduler.queue_cls s0) (Scheduler.queue_key s0) ser in
  let s := Scheduler.mk (Scheduler.persist s0) (Scheduler.flush_on_start s0)
             (Scheduler.queue_key s0) (Scheduler.queue_cls s0)
             (Scheduler.idle_before_close s0) (Scheduler.serializer s0) (Some q) in
  (Scheduler.flush_on_start s0 = true →
     Scheduler.open s0 w
     = (Ret s, mkWorld (delete (Scheduler.queue_key s0) (redis w))
                       (waited w) (logged w)))
  ∧ (Scheduler.flush_on_start s0 = false → Queue_len q w = (Ret n, w) →
     Scheduler.open s0 w
     = (Ret s,
        if n =? 0 then w
        else mkWorld (redis w) (waited w)
               (logged w ++ [LogInfo "Scheduler"
                               (resuming n (Scheduler.queue_key s0)) []]))).
Proof.
  intros Es [g Eg] [f Ef] q s.
  assert (∀ w, reraise_TypeError
                 (Base.init (Scheduler.queue_cls s0) (Scheduler.queue_key s0)
                    (Scheduler.serializer s0)) w = (Ret q, w)) as I.
  { intros w0. unfold reraise_TypeError, Base.init. by rewrite Es, Eg, Ef. }
  destruct w as [r wt lg]. split.
  - intros Fl. unfold Scheduler.open. erewrite run_bind; [| apply I].
    cbn [Scheduler.flush_on_start]. rewrite Fl.
    unfold Scheduler.flush, Scheduler.len. cbn [Scheduler.queue attr].
    erewrite run_bind; [| reflexivity].
    erewrite run_bind; [| rewrite run_mret_bind; apply (Queue_len_deleted q)].
    subst s. rewrite Fl. reflexivity.
  - intros Fl L. unfold Scheduler.open. erewrite run_bind; [| apply I].
    cbn [Scheduler.flush_on_start]. rewrite Fl.
    unfold Scheduler.len. cbn [Scheduler.queue attr].
    erewrite run_bind; [| reflexivity].
    erewrite run_bind; [| rewrite run_mret_bind; exact L].
    subst s. rewrite Fl. destruct (n =? 0); [reflexivity |]. cbn [negb].
    erewrite run_bind; [reflexivity |].
    erewrite run_bind; [| rewrite run_mret_bind; exact L]. reflexivity.
Qed.

Lemma open_flushes_only_on_start_witness :
  Scheduler.open (Scheduler.mk false true "queue:1" Fifo 0 (Some Sample.codec) None)
    (mkWorld (<["queue:1" := RList ["SA"]]> ∅) 0 [])
  = (Ret (Scheduler.mk false true "queue:1" Fifo 0 (Some Sample.codec)
            (Some Sample.queue_1)),
     mkWorld (delete "queue:1" (<["queue:1" := RList ["SA"]]> ∅)) 0 [])
  ∧ Scheduler.open (Scheduler.mk false false "queue:1" Fifo 0 (Some Sample.codec) None)
      (mkWorld (<["queue:1" := RList ["SA"]]> ∅) 0 [])
    = (Ret Sample.scheduler,
       mkWorld (<["queue:1" := RList ["SA"]]> ∅) 0
         [LogInfo "Scheduler" "Resuming project (1 objs scheduled in queue:1)" []]).
Proof.
  destruct (open_flushes_only_on_start
              (Scheduler.mk false true "queue:1" Fifo 0 (Some Sample.codec) None)
              Sample.codec 0 (mkWorld (<["queue:1" := RList ["SA"]]> ∅) 0 []))
    as [F _]; [reflexivity | by eexists | by eexists |].
  destruct (open_flushes_only_on_start
              (Scheduler.mk false false "queue:1" Fifo 0 (Some Sample.codec) None)
              Sample.codec 1 (mkWorld (<["queue:1" := RList ["SA"]]> ∅) 0 []))
    as [_ N]; [reflexivity | by eexists | by eexists |].
  split.
  - by apply F.
  - apply N; reflexivity.
Defined.

(** X11. [open] of each of the three schedulers with a serializer that lacks
    [loads] or [dumps] raises [ValueError] (the [TypeError] of the queue
    constructor, caught and replaced) and writes nothing, [flush_on_start]
    or not. *)
Theorem open_rejects_bad_serializer `{Host} (s0 : Scheduler.t) (p0 : PipeScheduler.t)
    (d0 : DupeFilterScheduler.t) (ser : Serializer) (w : World) :
  loads ser = None ∨ dumps ser = None →
  (Scheduler.serializer s0 = Some ser →
     Scheduler.open s0 w = (Raise ValueError, w))
  ∧ (PipeScheduler.serializer p0 = Some ser →
     PipeScheduler.open p0 w = (Raise ValueError, w))
  ∧ (Scheduler.serializer (DupeFilterScheduler.base d0) = Some ser →
     DupeFilterScheduler.open d0 w = (Raise ValueError, w)).
Proof.
  intros L.
  assert (∀ c k, reraise_TypeError (Base.init c k (Some ser)) w
                 = (Raise ValueError, w)) as I.
  { intros c k. unfold reraise_TypeError, Base.init.
    destruct L as [-> | ->]; [done |]. by destruct (loads ser). }
  split; [| split]; intros E.
  - unfold Scheduler.open. rewrite E. by erewrite run_bind_raise; [| apply I].
  - unfold PipeScheduler.open. rewrite E. by erewrite run_bind_raise; [| apply I].
  - unfold DupeFilterScheduler.open. rewrite E.
    by erewrite run_bind_raise; [| apply I].
Qed.

Lemma open_rejects_bad_serializer_witness :
  Scheduler.open
    (Scheduler.mk false true "queue:1" Fifo 0
       (Some (mkSerializer (Some Sample.sample_loads) None)) None)
    (mkWorld (<["queue:1" := RList ["SA"]]> ∅) 0 [])
  = (Raise ValueError, mkWorld (<["queue:1" := RList ["SA"]]> ∅) 0 []).
Proof.
  destruct (open_rejects_bad_serializer
              (Scheduler.mk false true "queue:1" Fifo 0
                 (Some (mkSerializer (Some Sample.sample_loads) None)) None)
              Sample.pipe_scheduler Sample.dupe_scheduler
              (mkSerializer (Some Sample.sample_loads) None)
              (mkWorld (<["queue:1" := RList ["SA"]]> ∅) 0 [])) as (S & _).
  - by right.
  - by apply S.
Defined.

(** X12. Before [open] a scheduler has no queue: on a scheduler as
    [__init__] returns it, [enqueue], [dequeue], [len] and [flush] raise
    [AttributeError] and write nothing, and so does [close] unless [persist]
    is set, in which case [close] returns. *)
Theorem methods_before_open_raise (persist flush_on_start : bool) (queue_key : string)
    (c : queue_class) (idle_before_close : Z) (serializer : option Serializer)
    (s : Scheduler.t) (obj : pyobj) (w : World) :
  Scheduler.init persist flush_on_start queue_key c idle_before_close serializer
    = Ret s →
  Scheduler.enqueue s obj w = (Raise AttributeError, w)
  ∧ Scheduler.dequeue s w = (Raise AttributeError, w)
  ∧ Scheduler.len s w = (Raise AttributeError, w)
  ∧ Scheduler.flush s w = (Raise AttributeError, w)
  ∧ Scheduler.close s w
    = (if persist then Ret () else Raise AttributeError, w).
Proof.
  unfold Scheduler.init. destruct (idle_before_close <? 0); [done |].
  intros [= <-]. repeat split. unfold Scheduler.close, Scheduler.close_with.
  by destruct persist.
Qed.

Lemma methods_before_open_raise_witness :
  Scheduler.enqueue (Scheduler.mk false false "queue:1" Fifo 0 None None) (PyStr "A")
    Sample.empty_world = (Raise AttributeError, Sample.empty_world)
  ∧ Scheduler.close (Scheduler.mk false false "queue:1" Fifo 0 None None)
      Sample.empty_world = (Raise AttributeError, Sample.empty_world).
Proof.
  destruct (methods_before_open_raise false false "queue:1" Fifo 0 None
              (Scheduler.mk false false "queue:1" Fifo 0 None None) (PyStr "A")
              Sample.empty_world) as (E & _ & _ & _ & C); [reflexivity |].
  by split.
Defined.

(** ** PipeScheduler *)

(** X13. On an opened [PipeScheduler], [len] is the sum of the lengths of
    the two queues; [close] without [persist] deletes the keys of both
    queues, after which [len] is 0, and with [persist] changes nothing. *)
Theorem pipe_close_clears_both_queues (p : PipeScheduler.t) (qi qo : Queue)
    (a b : Z) (w : World) :
  PipeScheduler.queue_in p = Some qi →
  PipeScheduler.queue_out p = Some qo →
  (Queue_len qi w = (Ret a, w) → Queue_len qo w = (Ret b, w) →
     PipeScheduler.len p w = (Ret (a + b), w))
  ∧ (PipeScheduler.persist p = false →
     ∃ w', PipeScheduler.close p w = (Ret (), w')
           ∧ w' = mkWorld (delete (key qo) (delete (key qi) (redis w)))
                          (waited w) (logged w)
           ∧ PipeScheduler.len p w' = (Ret 0, w'))
  ∧ (PipeScheduler.persist p = true → PipeScheduler.close p w = (Ret (), w)).
Proof.
  intros Oi Oo. split; [| split].
  - intros La Lb. unfold PipeScheduler.len. rewrite Oi, Oo. cbn [attr].
    rewrite run_mret_bind. erewrite run_bind; [| exact La].
    rewrite run_mret_bind. by erewrite run_bind; [| exact Lb].
  - intros P. destruct w as [r wt lg]. eexists.
    split; [| split; [reflexivity |]].
    + unfold PipeScheduler.close, PipeScheduler.flush. by rewrite P, Oi, Oo.
    + unfold PipeScheduler.len. rewrite Oi, Oo. cbn [attr].
      rewrite run_mret_bind. erewrite run_bind.
      2:{ rewrite delete_delete. apply Queue_len_deleted. }
      rewrite run_mret_bind. erewrite run_bind.
      2:{ rewrite delete_delete. apply Queue_len_deleted. }
      done.
  - intros P. unfold PipeScheduler.close. by rewrite P.
Qed.

Lemma pipe_close_clears_both_queues_witness :
  ∃ w', PipeScheduler.close Sample.pipe_scheduler
          (mkWorld (<["queue_in:1" := RList ["SA"]]> (<["queue_out:1" := RList ["SB"]]> ∅))
                   0 []) = (Ret (), w')
        ∧ PipeScheduler.len Sample.pipe_scheduler w' = (Ret 0, w').
Proof.
  destruct (pipe_close_clears_both_queues Sample.pipe_scheduler Sample.queue_in_1
              Sample.queue_out_1 1 1
              (mkWorld (<["queue_in:1" := RList ["SA"]]>
                          (<["queue_out:1" := RList ["SB"]]> ∅)) 0 []))
    as (_ & C & _); [reflexivity | reflexivity |].
  destruct C as (w' & C & _ & L); [reflexivity |]. by exists w'.
Defined.

(** X14. [pipe] on an inbound queue whose next item reads as an object [t]
    that is true as a Python value and that the outbound queue accepts (the
    serializer round-trips it and, on a priority queue, its priority is at
    most [2 ^ 53] in magnitude): the item leaves the inbound queue, [t] is
    pushed to the outbound queue and [pipe] returns [True].  On an empty
    inbound queue [pipe] returns [False] and the store is unchanged. *)
Theorem pipe_transfers_truthy_item (p : PipeScheduler.t) (qi qo : Queue)
    (d : string) (t : pyobj) r wt lg :
  PipeScheduler.queue_in p = Some qi →
  PipeScheduler.queue_out p = Some qo →
  (∀ r1 r2, next_item qi d r r1 → decodes (serializer qi) d t → d ≠ "" →
     truthy t = true → after_push qo t r1 r2 →
     PipeScheduler.pipe p (mkWorld r wt lg) = (Ret true, mkWorld r2 wt lg))
  ∧ (r !! key qi = None →
     ∃ wt', PipeScheduler.pipe p (mkWorld r wt lg) = (Ret false, mkWorld r wt' lg)).
Proof.
  intros Oi Oo. split.
  - intros r1 r2 N Dec Nd T A. by eapply pipe_moves_truthy_item.
  - intros E. by eapply pipe_on_empty_inbound.
Qed.

Lemma pipe_transfers_truthy_item_witness :
  PipeScheduler.pipe Sample.pipe_scheduler
    (mkWorld (Redis.store_list "queue_in:1" ([] ++ ["SA"]) ∅) 0 [])
  = (Ret true,
     mkWorld (Redis.store_list "queue_out:1" ["SA"]
                (Redis.store_list "queue_in:1" [] ∅)) 0 []).
Proof.
  destruct (pipe_transfers_truthy_item Sample.pipe_scheduler Sample.queue_in_1
              Sample.queue_out_1 "SA" (PyStr "A")
              (Redis.store_list "queue_in:1" ([] ++ ["SA"]) ∅) 0 []) as [T _];
    [reflexivity | reflexivity |].
  apply (T (Redis.store_list "queue_in:1" [] ∅)).
  - exists ∅, []. split; reflexivity.
  - eexists; split; reflexivity.
  - discriminate.
  - reflexivity.
  - exists (Redis.store_list "queue_in:1" [] ∅), "SA". split; [sample_encodes |].
    exists []. split; reflexivity.
Defined.

(** X15. A [PipeScheduler] whose two FIFO queues share one key and one
    serializer: [pipe] takes the oldest item of the list and puts it back as
    the newest, so the list is rotated and keeps its length. *)
Theorem pipe_on_one_key_rotates (p : PipeScheduler.t) (qi qo : Queue)
    (d : string) (t : pyobj) (l : list string) r wt lg :
  PipeScheduler.queue_in p = Some qi →
  PipeScheduler.queue_out p = Some qo →
  cls qi = Fifo → cls qo = Fifo → key qo = key qi →
  serializer qo = serializer qi →
  encodes (serializer qi) t d → truthy t = true →
  PipeScheduler.pipe p (mkWorld (Redis.store_list (key qi) (l ++ [d]) r) wt lg)
  = (Ret true, mkWorld (Redis.store_list (key qi) (d :: l) r) wt lg).
Proof.
  intros Oi Oo Ci Co K S E T. pose proof E as (_ & Nd & Dec).
  apply (pipe_moves_truthy_item p qi qo d t _ (Redis.store_list (key qi) l r));
    try done.
  - exists r. rewrite Ci. by exists l.
  - exists r, d. rewrite S, Co, K. split; [done |]. by exists l.
Qed.

Lemma pipe_on_one_key_rotates_witness :
  PipeScheduler.pipe
    (PipeScheduler.mk false false "jobs" Fifo "jobs" Fifo 0 (Some Sample.codec)
       (Some Sample.fifo_jobs) (Some Sample.fifo_jobs))
    (mkWorld (Redis.store_list "jobs" (["SC"; "SB"] ++ ["SA"]) ∅) 0 [])
  = (Ret true, mkWorld (Redis.store_list "jobs" ["SA"; "SC"; "SB"] ∅) 0 []).
Proof.
  apply (pipe_on_one_key_rotates _ Sample.fifo_jobs Sample.fifo_jobs "SA" (PyStr "A")
           ["SC"; "SB"] ∅ 0 []); try reflexivity.
  sample_encodes.
Defined.

(** ** RFPDupeFilter: length *)

Lemma obj_seen_all_answers `{Host} (d : RFPDupeFilter.t) objs S r wt lg :
  Redis.as_set (r !! RFPDupeFilter.key d) = Ret S →
  ∃ answers r' S',
    mapM (RFPDupeFilter.obj_seen d) objs (mkWorld r wt lg)
    = (Ret answers, mkWorld r' wt lg)
    ∧ Redis.as_set (r' !! RFPDupeFilter.key d) = Ret S'
    ∧ size S' = (size S + length (filter (λ b : bool, b = false) answers))%nat
    ∧ length answers = length objs
    ∧ (∀ i X, objs !! i = Some X →
         answers !! i
         = Some (bool_decide (obj_fingerprint X ∈ S
                              ∨ obj_fingerprint X ∈ obj_fingerprint <$> take i objs)))
    ∧ (∀ fp, fp ∈ S' ↔ fp ∈ S ∨ fp ∈ obj_fingerprint <$> objs).
Proof.
  revert S r. induction objs as [|X objs IH]; intros S r E.
  - exists [], r, S. split; [done | split; [done |]].
    split; [cbn; lia | split; [done | split; [done |]]].
    intros fp. split; [by left | intros [I | I]; [done |]].
    by apply not_elem_of_nil in I.
  - destruct (IH ({[obj_fingerprint X]} ∪ S)
                (<[RFPDupeFilter.key d := RSet ({[obj_fingerprint X]} ∪ S)]> r))
      as (answers & r' & S' & Run & E' & Sz & Len & Ans & Mem);
      [by rewrite lookup_insert_eq |].
    exists (bool_decide (obj_fingerprint X ∈ S) :: answers), r', S'.
    split; [| split; [done | split; [| split; [| split]]]].
    + eapply run_mapM_cons; [by apply obj_seen_run | done].
    + rewrite Sz, filter_cons. case_bool_decide as I.
      * rewrite decide_False; [| done].
        rewrite (subseteq_union_1_L {[obj_fingerprint X]} S); [done |].
        by apply singleton_subseteq_l.
      * rewrite decide_True; [| done].
        rewrite size_union, size_singleton; [cbn; lia |].
        by apply disjoint_singleton_l.
    + cbn. by rewrite Len.
    + intros [|i] Y L; cbn in L.
      * injection L as <-. cbn. f_equal. apply bool_decide_ext.
        split; [by left | intros [I | I]; [done |]].
        by apply not_elem_of_nil in I.
      * etrans; [exact (Ans i Y L) |]. f_equal. apply bool_decide_ext.
        cbn. rewrite elem_of_union, elem_of_singleton, elem_of_cons. tauto.
    + intros fp. rewrite Mem, elem_of_union, elem_of_singleton. cbn.
      rewrite elem_of_cons. tauto.
Qed.

(** X16. [obj_seen] called on a list of objects, the filter starting with no
    set: the answer to each call is true exactly when the fingerprint of the
    object is that of an earlier object of the list; the set then holds
    exactly the fingerprints of the objects; and the length of the filter is
    the number of calls that answered false.  Every first sight of a
    fingerprint adds one member, and a repeated fingerprint adds none. *)
Theorem filter_len_counts_first_sights `{Host} (d : RFPDupeFilter.t)
    (objs : list pyobj) (w : World) :
  redis w !! RFPDupeFilter.key d = None →
  ∃ answers w' S',
    mapM (RFPDupeFilter.obj_seen d) objs w = (Ret answers, w')
    ∧ length answers = length objs
    ∧ (∀ i X, objs !! i = Some X →
         answers !! i
         = Some (bool_decide (obj_fingerprint X ∈ obj_fingerprint <$> take i objs)))
    ∧ Redis.as_set (redis w' !! RFPDupeFilter.key d) = Ret S'
    ∧ (∀ fp, fp ∈ S' ↔ fp ∈ obj_fingerprint <$> objs)
    ∧ RFPDupeFilter.len d w'
      = (Ret (Z.of_nat (length (filter (λ b : bool, b = false) answers))), w').
Proof.
  intros E. destruct w as [r wt lg]; cbn in E.
  destruct (obj_seen_all_answers d objs ∅ r wt lg)
    as (answers & r' & S' & Run & E' & Sz & Len & Ans & Mem); [by rewrite E |].
  exists answers. eexists. exists S'.
  split; [exact Run | split; [done | split; [| split; [done | split]]]].
  - intros i X L. rewrite (Ans i X L). f_equal. apply bool_decide_ext.
    split; [intros [I | I]; [| done] | by right].
    by apply not_elem_of_empty in I.
  - intros fp. rewrite Mem. split; [intros [I | I]; [| done] | by right].
    by apply not_elem_of_empty in I.
  - unfold RFPDupeFilter.len, Redis.scard. run. rewrite E'. cbn.
    by rewrite Sz, size_empty.
Qed.

Lemma filter_len_counts_first_sights_witness :
  ∃ answers w' S',
    mapM (RFPDupeFilter.obj_seen Sample.filter)
      [PyStr "a"; PyStr "b"; PyStr "a"] Sample.empty_world = (Ret answers, w')
    ∧ length answers = 3%nat
    ∧ answers !! 2%nat = Some true
    ∧ Redis.as_set (redis w' !! "dupefilter:1") = Ret S'
    ∧ RFPDupeFilter.len Sample.filter w'
      = (Ret (Z.of_nat (length (filter (λ b : bool, b = false) answers))), w').
Proof.
  destruct (filter_len_counts_first_sights Sample.filter
              [PyStr "a"; PyStr "b"; PyStr "a"] Sample.empty_world)
    as (answers & w' & S' & Run & Len & Ans & E & _ & L); [reflexivity |].
  exists answers, w', S'.
  split; [exact Run | split; [exact Len | split; [| split; [exact E | exact L]]]].
  exact (Ans 2%nat (PyStr "a") eq_refl).
Defined.

(** The run of the witness: two first sights, one repeat, length 2. *)
Example filter_len_after_repeat :
  (mapM (RFPDupeFilter.obj_seen Sample.filter) [PyStr "a"; PyStr "b"; PyStr "a"]
   ≫= λ answers, n ← RFPDupeFilter.len Sample.filter; mret (answers, n))
    Sample.empty_world
  = (Ret ([false; false; true], 2),
     mkWorld (<["dupefilter:1" := RSet ({["Sa"]} ∪ ({["Sb"]} ∪ ({["Sa"]} ∪ ∅)))]> ∅) 0 []).
Proof. vm_compute. reflexivity. Qed.

(** ** DupeFilterScheduler: what the filter remembers *)

Lemma Queue_push_dumps_raises (q : Queue) (X : pyobj) f e (w : World) :
  dumps (serializer q) = Some f → f X = Raise e →
  Queue_push q X w = (Raise e, w).
Proof.
  intros Ef E. unfold Queue_push, FifoQueue.push, PriorityQueue.push,
                      LifoQueue.push, Base._serialize.
  rewrite Ef. destruct (cls q); run; by rewrite E.
Qed.

Lemma DupeFilterScheduler_dequeue_run (self : DupeFilterScheduler.t) (q : Queue)
    (t : pyobj) w w' :
  Scheduler.queue (DupeFilterScheduler.base self) = Some q →
  Queue_pop q (Scheduler.idle_before_close (DupeFilterScheduler.base self)) w
  = (Ret t, w') →
  DupeFilterScheduler.dequeue self w = (Ret (if truthy t then t else PyNone), w').
Proof.
  intros O P. unfold DupeFilterScheduler.dequeue. rewrite O. cbn [attr].
  rewrite run_mret_bind. erewrite run_bind; [| exact P]. by destruct (truthy t).
Qed.

(** A first push to an empty queue, and the pop that undoes it. *)
Lemma push_first_then_next (q : Queue) (X : pyobj) (r : gmap string rvalue) :
  pushable q X → r !! key q = None →
  ∃ d r', after_push q X r r' ∧ next_item q d r' r
          ∧ decodes (serializer q) d X ∧ d ≠ "" ∧ r' !! key q ≠ None
          ∧ ∀ k, k ≠ key q → r' !! k = r !! k.
Proof.
  intros [[d E] P] N. pose proof E as (_ & Nd & Dec).
  pose proof (delete_id r (key q) N) as D.
  assert (∀ v, (<[key q := v]> r) !! key q ≠ None
               ∧ ∀ k, k ≠ key q → (<[key q := v]> r) !! k = r !! k) as I.
  { intros v. split; [by rewrite lookup_insert_eq |].
    intros k Ne. by rewrite lookup_insert_ne. }
  unfold after_push, next_item. destruct (cls q) eqn:C.
  - exists d, (<[key q := RList [d]]> r).
    split; [| split; [| split; [done | split; [done | apply I]]]].
    + exists r, d. split; [done |]. by exists [].
    + exists r, []. by split.
  - destruct P as (p & P & B); [done |].
    exists d, (<[key q := RZSet [(- p, d)]]> r).
    split; [| split; [| split; [done | split; [done | apply I]]]].
    + exists r, d. split; [done |]. by exists p, [].
    + exists r, (- p), []. by split.
  - exists d, (<[key q := RList [d]]> r).
    split; [| split; [| split; [done | split; [done | apply I]]]].
    + exists r, d. split; [done |]. by exists [].
    + exists r, []. by split.
Qed.

(** X17. The filter is asked before the queue is written: when the
    serializer raises on [X], [enqueue X] raises that error with the
    fingerprint of [X] already in the set and nothing in the queue, and a
    second [enqueue X] returns [False]. *)
Theorem failed_push_still_marks_seen `{Host} (self : DupeFilterScheduler.t)
    (d : RFPDupeFilter.t) (q : Queue) (X : pyobj) (S : gset string)
    (f : pyobj → outcome string) (e : exn) (w : World) :
  DupeFilterScheduler.df self = Some d →
  Scheduler.queue (DupeFilterScheduler.base self) = Some q →
  Redis.as_set (redis w !! RFPDupeFilter.key d) = Ret S →
  obj_fingerprint X ∉ S →
  dumps (serializer q) = Some f → f X = Raise e →
  ∃ w1, DupeFilterScheduler.enqueue self X w = (Raise e, w1)
        ∧ w1 = mkWorld (<[RFPDupeFilter.key d := RSet ({[obj_fingerprint X]} ∪ S)]>
                          (redis w)) (waited w) (logged w)
        ∧ ∃ self' lg,
            DupeFilterScheduler.enqueue self X w1
            = (Ret (false, self'), mkWorld (redis w1) (waited w1) lg).
Proof.
  intros Od Oq E I Ef Ee. destruct w as [r wt lg]; cbn in *.
  eexists. split; [| split; [reflexivity |]].
  - unfold DupeFilterScheduler.enqueue. rewrite Od. cbn [attr].
    rewrite run_mret_bind. erewrite run_bind; [| by apply obj_seen_run].
    rewrite bool_decide_eq_false_2; [| done]. rewrite Oq. cbn [attr].
    rewrite run_mret_bind.
    by erewrite run_bind_raise; [| by eapply Queue_push_dumps_raises].
  - destruct (enqueue_seen self d Od X ({[obj_fingerprint X]} ∪ S)
                (mkWorld (<[RFPDupeFilter.key d
                            := RSet ({[obj_fingerprint X]} ∪ S)]> r) wt lg))
      as (self' & lg' & R & _).
    + cbn. by rewrite lookup_insert_eq.
    + set_solver.
    + by exists self', lg'.
Qed.

Lemma failed_push_still_marks_seen_witness :
  ∃ w1, DupeFilterScheduler.enqueue Sample.dupe_scheduler (PyBool true)
          Sample.empty_world = (Raise CodecError, w1)
        ∧ ∃ self' lg,
            DupeFilterScheduler.enqueue Sample.dupe_scheduler (PyBool true) w1
            = (Ret (false, self'), mkWorld (redis w1) (waited w1) lg).
Proof.
  destruct (failed_push_still_marks_seen Sample.dupe_scheduler Sample.filter
              Sample.queue_1 (PyBool true) ∅ Sample.sample_dumps CodecError
              Sample.empty_world) as (w1 & R & _ & D); try reflexivity.
  - apply not_elem_of_empty.
  - by exists w1.
Defined.

(** X18. [dequeue] does not touch the filter: after [enqueue X] and the
    [dequeue] that returns [X], the queue is empty again but a second
    [enqueue X] returns [False] and queues nothing.  [X] is true as a Python
    value and a task [push] accepts (round-tripped by the serializer and, on
    a priority queue, of a priority of at most [2 ^ 53] in magnitude); filter
    and queue are on different keys. *)
Theorem dequeued_task_stays_seen `{Host} (self : DupeFilterScheduler.t)
    (d : RFPDupeFilter.t) (q : Queue) (X : pyobj) (S : gset string) (w : World) :
  DupeFilterScheduler.df self = Some d →
  Scheduler.queue (DupeFilterScheduler.base self) = Some q →
  Redis.as_set (redis w !! RFPDupeFilter.key d) = Ret S →
  obj_fingerprint X ∉ S → RFPDupeFilter.key d ≠ key q →
  redis w !! key q = None → pushable q X → truthy X = true →
  ∃ w1 w2 self3 w3,
    DupeFilterScheduler.enqueue self X w = (Ret (true, self), w1)
    ∧ DupeFilterScheduler.dequeue self w1 = (Ret X, w2)
    ∧ redis w2 !! key q = None
    ∧ DupeFilterScheduler.enqueue self X w2 = (Ret (false, self3), w3)
    ∧ redis w3 = redis w2.
Proof.
  intros Od Oq E I Ne N P T. destruct w as [r wt lg]; cbn in *.
  set (r1 := <[RFPDupeFilter.key d := RSet ({[obj_fingerprint X]} ∪ S)]> r).
  destruct (push_first_then_next q X r1 P) as (b & r2 & A & Nx & Dec & Nb & _ & Oth).
  { unfold r1. by rewrite lookup_insert_ne. }
  destruct (enqueue_seen self d Od X ({[obj_fingerprint X]} ∪ S) (mkWorld r1 wt lg))
    as (self3 & lg3 & R3 & _).
  { cbn. unfold r1. by rewrite lookup_insert_eq. }
  { set_solver. }
  exists (mkWorld r2 wt lg), (mkWorld r1 wt lg), self3, (mkWorld r1 wt lg3).
  split; [| split; [| split; [| split; [done | done]]]].
  - by apply (enqueue_unseen self d q Od Oq X S).
  - erewrite DupeFilterScheduler_dequeue_run;
      [| exact Oq | by apply (Queue_pop_next q b)].
    by rewrite T.
  - cbn. unfold r1. by rewrite lookup_insert_ne.
Qed.

Lemma dequeued_task_stays_seen_witness :
  ∃ w1 w2 self3 w3,
    DupeFilterScheduler.enqueue Sample.dupe_scheduler (PyStr "job") Sample.empty_world
    = (Ret (true, Sample.dupe_scheduler), w1)
    ∧ DupeFilterScheduler.dequeue Sample.dupe_scheduler w1 = (Ret (PyStr "job"), w2)
    ∧ redis w2 !! "queue:1" = None
    ∧ DupeFilterScheduler.enqueue Sample.dupe_scheduler (PyStr "job") w2
      = (Ret (false, self3), w3)
    ∧ redis w3 = redis w2.
Proof.
  apply (dequeued_task_stays_seen Sample.dupe_scheduler Sample.filter Sample.queue_1
           (PyStr "job") ∅ Sample.empty_world); try reflexivity.
  - apply not_elem_of_empty.
  - discriminate.
  - split; [eexists; sample_encodes | discriminate].
Defined.

(** X19. [flush] makes the filter forget: after [enqueue X], [flush] deletes
    the set and the queue, and the next [enqueue X] returns [True] again and
    leaves the queue with length 1.  [X] is a task [push] accepts (on a
    priority queue, of a priority of at most [2 ^ 53] in magnitude). *)
Theorem flush_forgets_seen_tasks `{Host} (self : DupeFilterScheduler.t)
    (d : RFPDupeFilter.t) (q : Queue) (X : pyobj) (S : gset string) (w : World) :
  DupeFilterScheduler.df self = Some d →
  Scheduler.queue (DupeFilterScheduler.base self) = Some q →
  Redis.as_set (redis w !! RFPDupeFilter.key d) = Ret S →
  obj_fingerprint X ∉ S → RFPDupeFilter.key d ≠ key q →
  redis w !! key q = None → pushable q X →
  ∃ w1 w2 w3,
    DupeFilterScheduler.enqueue self X w = (Ret (true, self), w1)
    ∧ DupeFilterScheduler.flush self w1 = (Ret (), w2)
    ∧ redis w2 !! RFPDupeFilter.key d = None ∧ redis w2 !! key q = None
    ∧ DupeFilterScheduler.enqueue self X w2 = (Ret (true, self), w3)
    ∧ DupeFilterScheduler.len self w3 = (Ret 1, w3).
Proof.
  intros Od Oq E I Ne N P. destruct w as [r wt lg]; cbn in *.
  set (r1 := <[RFPDupeFilter.key d := RSet ({[obj_fingerprint X]} ∪ S)]> r).
  destruct (Queue_push_first q X r1 wt lg P) as (v & A & _).
  { unfold r1. by rewrite lookup_insert_ne. }
  set (r2 := delete (key q) (delete (RFPDupeFilter.key d) (<[key q := v]> r1))).
  set (r3 := <[RFPDupeFilter.key d := RSet ({[obj_fingerprint X]} ∪ ∅)]> r2).
  assert (r2 !! RFPDupeFilter.key d = None) as Nd.
  { unfold r2. rewrite lookup_delete_ne; [by rewrite lookup_delete_eq | congruence]. }
  destruct (Queue_push_first q X r3 wt lg P) as (v' & A' & L').
  { unfold r3, r2. rewrite lookup_insert_ne; [by rewrite lookup_delete_eq | done]. }
  exists (mkWorld (<[key q := v]> r1) wt lg), (mkWorld r2 wt lg),
         (mkWorld (<[key q := v']> r3) wt lg).
  split; [| split; [| split; [done | split; [| split]]]].
  - by apply (enqueue_unseen self d q Od Oq X S).
  - unfold DupeFilterScheduler.flush. by rewrite Od, Oq.
  - cbn. unfold r2. by rewrite lookup_delete_eq.
  - apply (enqueue_unseen self d q Od Oq X ∅); cbn; [by rewrite Nd | | done].
    apply not_elem_of_empty.
  - unfold DupeFilterScheduler.len, Scheduler.len. by rewrite Oq.
Qed.

Lemma flush_forgets_seen_tasks_witness :
  ∃ w1 w2 w3,
    DupeFilterScheduler.enqueue Sample.dupe_scheduler (PyStr "job") Sample.empty_world
    = (Ret (true, Sample.dupe_scheduler), w1)
    ∧ DupeFilterScheduler.flush Sample.dupe_scheduler w1 = (Ret (), w2)
    ∧ redis w2 !! "dupefilter:1" = None ∧ redis w2 !! "queue:1" = None
    ∧ DupeFilterScheduler.enqueue Sample.dupe_scheduler (PyStr "job") w2
      = (Ret (true, Sample.dupe_scheduler), w3)
    ∧ DupeFilterScheduler.len Sample.dupe_scheduler w3 = (Ret 1, w3).
Proof.
  apply (flush_forgets_seen_tasks Sample.dupe_scheduler Sample.filter Sample.queue_1
           (PyStr "job") ∅ Sample.empty_world); try reflexivity.
  - apply not_elem_of_empty.
  - discriminate.
  - split; [eexists; sample_encodes | discriminate].
Defined.

(** ** RFPDupeFilter: the duplicate log *)

Lemma enqueue_seen_log `{Host} (self : DupeFilterScheduler.t) (d : RFPDupeFilter.t)
    (X : pyobj) (S : gset string) (w : World) :
  DupeFilterScheduler.df self = Some d →
  Redis.as_set (redis w !! RFPDupeFilter.key d) = Ret S →
  obj_fingerprint X ∈ S →
  DupeFilterScheduler.enqueue self X w
  = match RFPDupeFilter.log d X w with
    | (Ret d', w') =>
        (Ret (false, DupeFilterScheduler.mk (DupeFilterScheduler.base self)
                       (DupeFilterScheduler.dupefilter_key self)
                       (DupeFilterScheduler.dupefilter_debug self) (Some d')), w')
    | (Raise e, w') => (Raise e, w')
    end.
Proof.
  intros Od E I. destruct w as [r wt lg]; cbn in *.
  unfold DupeFilterScheduler.enqueue. rewrite Od. cbn [attr].
  rewrite run_mret_bind. erewrite run_bind; [| by apply obj_seen_run].
  rewrite bool_decide_eq_true_2; [| done].
  assert (<[RFPDupeFilter.key d := RSet ({[obj_fingerprint X]} ∪ S)]> r = r) as ->.
  { apply insert_id. destruct (r !! RFPDupeFilter.key d) as [[]|]; try done.
    - injection E as ->. do 2 f_equal.
      symmetry. by apply subseteq_union_1_L, singleton_subseteq_l.
    - injection E as <-. by apply not_elem_of_empty in I. }
  unfold mbind, M_bind.
  by destruct (RFPDupeFilter.log d X _) as [[d'|e] w'].
Qed.

(** X20. Duplicates are logged once: on a scheduler whose filter is not in
    debug mode and has logged no duplicate yet, the first [enqueue] of an
    already seen task appends one record to the log and later ones append
    none; in debug mode every such [enqueue] appends one record.  The store
    is never written. *)
Theorem duplicates_are_logged_once `{Host} (self : DupeFilterScheduler.t)
    (d : RFPDupeFilter.t) (X Y : pyobj) (S : gset string) (w : World) :
  DupeFilterScheduler.df self = Some d →
  Redis.as_set (redis w !! RFPDupeFilter.key d) = Ret S →
  obj_fingerprint X ∈ S → obj_fingerprint Y ∈ S →
  (RFPDupeFilter.debug d = false → RFPDupeFilter.logdupes d = true →
     ∃ self1 record,
       DupeFilterScheduler.enqueue self X w
       = (Ret (false, self1), mkWorld (redis w) (waited w) (logged w ++ [record]))
       ∧ DupeFilterScheduler.enqueue self1 Y
           (mkWorld (redis w) (waited w) (logged w ++ [record]))
         = (Ret (false, self1),
            mkWorld (redis w) (waited w) (logged w ++ [record])))
  ∧ (RFPDupeFilter.debug d = true →
     ∃ rx ry,
       (DupeFilterScheduler.enqueue self X ≫= λ '(_, self1),
        DupeFilterScheduler.enqueue self1 Y) w
       = (Ret (false, self),
          mkWorld (redis w) (waited w) (logged w ++ [rx; ry]))).
Proof.
  intros Od E IX IY. destruct w as [r wt lg]; cbn in *. split.
  - intros Dbg Lat. eexists _, _. split.
    + rewrite (enqueue_seen_log self d X S); [| done | done | done].
      unfold RFPDupeFilter.log. rewrite Dbg, Lat. reflexivity.
    + erewrite (enqueue_seen_log _ _ Y S); [| reflexivity | done | done].
      unfold RFPDupeFilter.log. reflexivity.
  - intros Dbg. eexists _, _.
    erewrite run_bind.
    2:{ rewrite (enqueue_seen_log self d X S); [| done | done | done].
        unfold RFPDupeFilter.log. rewrite Dbg. reflexivity. }
    cbn beta iota.
    erewrite (enqueue_seen_log _ _ Y S); [| reflexivity | done | done].
    unfold RFPDupeFilter.log. rewrite Dbg. run.
    rewrite <- app_assoc. cbn. destruct self; cbn in *. by rewrite Od.
Qed.

Lemma duplicates_are_logged_once_witness :
  ∃ self1 record,
    DupeFilterScheduler.enqueue Sample.dupe_scheduler (PyStr "a")
      (mkWorld (<["dupefilter:1" := RSet {["Sa"]}]> ∅) 0 [])
    = (Ret (false, self1), mkWorld (<["dupefilter:1" := RSet {["Sa"]}]> ∅) 0 [record])
    ∧ DupeFilterScheduler.enqueue self1 (PyStr "a")
        (mkWorld (<["dupefilter:1" := RSet {["Sa"]}]> ∅) 0 [record])
      = (Ret (false, self1),
         mkWorld (<["dupefilter:1" := RSet {["Sa"]}]> ∅) 0 [record]).
Proof.
  destruct (duplicates_are_logged_once Sample.dupe_scheduler Sample.filter
              (PyStr "a") (PyStr "a") {["Sa"]}
              (mkWorld (<["dupefilter:1" := RSet {["Sa"]}]> ∅) 0 []))
    as [Once _];
    [reflexivity | reflexivity | by apply elem_of_singleton
    | by apply elem_of_singleton |].
  destruct (Once eq_refl eq_refl) as (self1 & record & A & B).
  exists self1, record. split; [exact A | exact B].
Defined.

(** ** PipeScheduler: the two sides *)

(** X21. The two sides of a [PipeScheduler] on different keys are separate:
    a task put on ['out'] is not seen by [dequeue] on an empty ['in'], which
    returns [None], and is returned by [dequeue] on ['out'], which leaves
    both queues empty.  The task is true as a Python value and one [push]
    accepts (on a priority queue, of a priority of at most [2 ^ 53] in
    magnitude). *)
Theorem pipe_sides_are_separate (p : PipeScheduler.t) (qi qo : Queue) (X : pyobj)
    (w : World) :
  PipeScheduler.queue_in p = Some qi →
  PipeScheduler.queue_out p = Some qo →
  key qi ≠ key qo →
  redis w !! key qi = None → redis w !! key qo = None →
  pushable qo X → truthy X = true →
  ∃ w1 w2,
    PipeScheduler.enqueue p X "out" w = (Ret true, w1)
    ∧ PipeScheduler.dequeue p "in" w1 = (Ret PyNone, w2)
    ∧ redis w2 = redis w1
    ∧ PipeScheduler.dequeue p "out" w2
      = (Ret X, mkWorld (redis w) (waited w2) (logged w)).
Proof.
  intros Oi Oo Ne Ni No P T. destruct w as [r wt lg]; cbn in *.
  destruct (push_first_then_next qo X r P No) as (b & r1 & A & Nx & Dec & Nb & _ & Oth).
  destruct (Queue_pop_empty qi r1 wt lg (PipeScheduler.idle_before_close p))
    as [wt' Pi]; [by rewrite Oth |].
  exists (mkWorld r1 wt lg), (mkWorld r1 wt' lg).
  split; [| split; [| split; [done |]]].
  - unfold PipeScheduler.enqueue. cbn [String.eqb Ascii.eqb Bool.eqb].
    rewrite Oo. cbn [attr].
    erewrite run_bind; [done |]. rewrite run_mret_bind. by apply Queue_push_run.
  - change (PipeScheduler.dequeue p "in" (mkWorld r1 wt lg)
            = (Ret PyNone, mkWorld r1 wt' lg)).
    by erewrite PipeScheduler_dequeue_in_run; [| exact Oi | exact Pi].
  - unfold PipeScheduler.dequeue. cbn [String.eqb Ascii.eqb Bool.eqb].
    rewrite Oo. cbn [attr].
    erewrite run_bind.
    2:{ rewrite run_mret_bind. by apply (Queue_pop_next qo b). }
    by rewrite T.
Qed.

Lemma pipe_sides_are_separate_witness :
  ∃ w1 w2,
    PipeScheduler.enqueue Sample.pipe_scheduler (PyStr "A") "out" Sample.empty_world
    = (Ret true, w1)
    ∧ PipeScheduler.dequeue Sample.pipe_scheduler "in" w1 = (Ret PyNone, w2)
    ∧ redis w2 = redis w1
    ∧ PipeScheduler.dequeue Sample.pipe_scheduler "out" w2
      = (Ret (PyStr "A"), mkWorld ∅ (waited w2) []).
Proof.
  apply (pipe_sides_are_separate Sample.pipe_scheduler Sample.queue_in_1
           Sample.queue_out_1 (PyStr "A") Sample.empty_world); try reflexivity.
  - discriminate.
  - split; [eexists; sample_encodes | discriminate].
Defined.

(** ** Priorities beyond a double, through the schedulers *)

(** On a priority queue a task of priority [2 ^ 1024] is refused by [ZADD]:
    [PipeScheduler.enqueue] on that side raises, with nothing written. *)
Example enqueue_beyond_double_raises :
  PipeScheduler.enqueue
    (PipeScheduler.mk false false "queue_in:1" Fifo "jobs" Priority 0
       (Some Sample.codec) (Some Sample.queue_in_1) (Some Sample.priority_jobs))
    (Sample.task (2 ^ 1024) "z") "out" Sample.empty_world
  = (Raise ResponseError, Sample.empty_world).
Proof. vm_compute. reflexivity. Qed.
